(** * Positional text extraction and patching for slide decks (main.py)

    A shallow embedding of the backend of [main.py]: [extract_content],
    [apply_changes] and the stream loop of the generator tab, together
    with the Python string primitives they rely on and the part of
    python-pptx that the code calls.

    Python [str] values are modelled as lists of characters, one Rocq
    [ascii] per code point, so the alphabet is the code points 0..255.
    In that range the regular-expression class [\d] is exactly [0-9],
    and [\s] is the set used by [str.strip()] and [str.isspace()].
    Python integers are unbounded, and [int()] refuses a digit string
    longer than [max_str_digits], as the interpreter does.

    A presentation is the tree that the code walks.  Reading [run.text]
    returns the stored text; assigning to it goes through the setter of
    python-pptx, which writes every control character other than tab and
    line feed as [_xHHHH_] and hands the result to the XML layer, which
    raises [ValueError] on a character that XML cannot carry.  After the
    escaping the only such characters are U+FFFE, U+FFFF and the
    surrogates, none of which is in the alphabet: in the model the
    setter always returns (lemma [run_text_setter_ok]), and every result
    below about [apply_changes] returning is a result about payloads
    over the code points 0..255.  Loading and saving the file are
    outside.  Code that mutates the presentation in place is written as
    a function that returns the new one, and code that can raise returns
    a [result]. *)

From Stdlib Require Import Ascii String.
From Stdlib Require DecimalString DecimalNat.
From stdpp Require Import base option list gmap.

Open Scope list_scope.

(** ** Python strings *)

Module Py.

Definition pystr := list ascii.

(** String literals. *)
Definition str (s : string) : pystr := list_ascii_of_string s.
Arguments str s%_string.

Definition LF : ascii := "010"%char.

(** [\d] (and the digits accepted by [int()]) *)
Definition is_digit (c : ascii) : bool :=
  let n := nat_of_ascii c in (48 <=? n) && (n <=? 57).

(** [\s], [str.isspace()], the default set of [str.strip()] *)
Definition is_space (c : ascii) : bool :=
  bool_decide (nat_of_ascii c ∈ [9; 10; 11; 12; 13; 28; 29; 30; 31; 32; 133; 160]).

Definition ascii_eqb (a b : ascii) : bool := bool_decide (a = b).

(** Greedy scanning: the longest prefix whose characters satisfy [p]. *)
Fixpoint take_while (p : ascii → bool) (s : pystr) : pystr :=
  match s with
  | c :: s' => if p c then c :: take_while p s' else []
  | [] => []
  end.

Fixpoint drop_while (p : ascii → bool) (s : pystr) : pystr :=
  match s with
  | c :: s' => if p c then drop_while p s' else s
  | [] => []
  end.

(** [s.strip(chars)] for a character class, and [s.strip()] *)
Definition strip_class (p : ascii → bool) (s : pystr) : pystr :=
  reverse (drop_while p (reverse (drop_while p s))).

(** Neither end of [s] is in the class [p]: what [strip_class p] leaves. *)
Definition trimmed (p : ascii → bool) (s : pystr) : Prop :=
  (∀ c, head s = Some c → p c = false) ∧ (∀ c, last s = Some c → p c = false).

Definition strip (s : pystr) : pystr := strip_class is_space s.

Definition strip_chars (chars : pystr) (s : pystr) : pystr :=
  strip_class (λ c, bool_decide (c ∈ chars)) s.

(** [s.startswith(p)] *)
Fixpoint startswith (s p : pystr) {struct p} : bool :=
  match p, s with
  | [], _ => true
  | a :: p', b :: s' => ascii_eqb a b && startswith s' p'
  | _ :: _, [] => false
  end.

(** [s.find(sub)]: index of the first occurrence, [None] for Python's -1 *)
Fixpoint find (sub s : pystr) {struct s} : option nat :=
  if startswith s sub then Some 0
  else match s with
       | [] => None
       | _ :: s' => S <$> find sub s'
       end.

(** [sub in s] *)
Definition contains (sub s : pystr) : bool :=
  match find sub s with Some _ => true | None => false end.

(** [s.split(sep)] for a non-empty [sep]: cut at successive
    non-overlapping occurrences, scanning left to right.  Every cut
    removes at least one character, so [length s] rounds are enough
    (lemma [split_fuel_enough]). *)
Fixpoint split_fuel (fuel : nat) (sep s : pystr) : list pystr :=
  match fuel with
  | 0 => [s]
  | S fuel' =>
      match find sep s with
      | None => [s]
      | Some i => take i s :: split_fuel fuel' sep (drop (i + length sep) s)
      end
  end.

Definition split (sep s : pystr) : list pystr := split_fuel (length s) sep s.

(** [sep.join(l)] *)
Fixpoint join (sep : pystr) (l : list pystr) : pystr :=
  match l with
  | [] => []
  | [x] => x
  | x :: l' => x ++ sep ++ join sep l'
  end.

Definition digit_char (d : nat) : ascii := ascii_of_nat (48 + d).

(** [str(n)], also the conversion of an index inside an f-string: the
    decimal digits, least significant first onto [acc].  A number below
    [fuel] is written out in full (lemma [str_nat_fuel_spec]). *)
Fixpoint str_nat_fuel (fuel n : nat) (acc : pystr) : pystr :=
  match fuel with
  | 0 => acc
  | S fuel' =>
      let acc' := digit_char (n mod 10) :: acc in
      if n / 10 =? 0 then acc' else str_nat_fuel fuel' (n / 10) acc'
  end.

Definition str_nat (n : nat) : pystr := str_nat_fuel (S n) n [].

(** Exceptions that the modelled code can meet. *)
Inductive exn := ValueError | IndexError.

Inductive result (A : Type) :=
  | Ok (a : A)
  | Raise (e : exn).
Arguments Ok {A} a.
Arguments Raise {A} e.

#[global] Instance result_ret : MRet result := λ A a, Ok a.
#[global] Instance result_bind : MBind result := λ A B k m,
  match m with
  | Ok a => k a
  | Raise e => Raise e
  end.

Definition digit_val (c : ascii) : nat := nat_of_ascii c - 48.

Definition digits_value (s : pystr) : nat :=
  fold_left (λ acc c, 10 * acc + digit_val c) s 0.

(** The longest digit string that [int()] converts
    ([sys.get_int_max_str_digits()], 4300 unless the interpreter is
    configured otherwise); leading zeros count. *)
Definition max_str_digits : nat := 4300.

(** [int(s)] on a digit string of at most [max_str_digits] digits;
    anything else is a [ValueError].  The only call sites pass
    substrings matched by [\d+] (lemma [parse_uid]). *)
Definition int (s : pystr) : result nat :=
  match s with
  | [] => Raise ValueError
  | _ =>
      if forallb is_digit s then
        if length s <=? max_str_digits then Ok (digits_value s) else Raise ValueError
      else Raise ValueError
  end.

(** [l[i]] *)
Definition index {A} (l : list A) (i : nat) : result A :=
  match l !! i with
  | Some x => Ok x
  | None => Raise IndexError
  end.

(** [enumerate(l)] *)
Fixpoint enumerate_from {A} (i : nat) (l : list A) : list (nat * A) :=
  match l with
  | [] => []
  | x :: l' => (i, x) :: enumerate_from (S i) l'
  end.

Definition enumerate {A} (l : list A) : list (nat * A) := enumerate_from 0 l.

End Py.

Import Py.

(** ** Data model: the part of a python-pptx presentation that the code reads and writes *)

(** A run: its [text], and [font] standing for the character formatting
    that the code never touches. *)
Record Run := mkRun { text : pystr; font : nat }.

Record Paragraph := mkParagraph { runs : list Run }.

(** [shape.has_text_frame] holds for [TextShape]; its [text_frame.paragraphs]
    is the argument.  Pictures, tables, ... are [OtherShape]. *)
Inductive Shape :=
  | TextShape (paragraphs : list Paragraph)
  | OtherShape (kind : nat).

Record Slide := mkSlide { shapes : list Shape }.

Record Presentation := mkPresentation { slides : list Slide }.

(** Font of a run created by [paragraph.add_run()]. *)
Definition default_font : nat := 0.

(** ** The setter of [run.text]

    [_Run.text = t] stores [_escape_ctrl_chars(t)] in the [a:t] element
    of the run, and the XML layer checks what it is given. *)

(** The characters that [_escape_ctrl_chars] rewrites: 0x00-0x08 and
    0x0B-0x1F, that is every control character but tab and line feed. *)
Definition is_ctrl_char (c : ascii) : bool :=
  let n := N_of_ascii c in ((n <=? 8) || ((11 <=? n) && (n <=? 31)))%N.

Definition hex_digit (d : N) : ascii := nth (N.to_nat d) (str "0123456789ABCDEF") "0"%char.

(** The format [%04X] *)
Definition hex4 (n : N) : pystr :=
  [ hex_digit (n / 4096 mod 16); hex_digit (n / 256 mod 16);
    hex_digit (n / 16 mod 16); hex_digit (n mod 16) ]%N.

(** One character as the setter writes it: [_xHHHH_] for a control
    character, the character itself otherwise. *)
Definition escape_char (c : ascii) : pystr :=
  if is_ctrl_char c then str "_x" ++ hex4 (N_of_ascii c) ++ str "_" else [c].

Definition escape_ctrl_chars (s : pystr) : pystr := flat_map escape_char s.

(** The code points that the XML layer accepts in a text: all but the
    control characters other than tab, line feed and carriage return,
    the surrogates, U+FFFE and U+FFFF. *)
Definition xml_char (n : N) : bool :=
  negb ((n <=? 8) || (n =? 11) || (n =? 12) || ((14 <=? n) && (n <=? 31))
        || ((55296 <=? n) && (n <=? 57343)) || (n =? 65534) || (n =? 65535))%N.

(** Assigning to the text of an XML element: a [ValueError] on a
    character that XML cannot carry. *)
Definition xml_text (t : pystr) : result pystr :=
  if forallb (λ c, xml_char (N_of_ascii c)) t then Ok t else Raise ValueError.

(** What [run.text = t] stores. *)
Definition run_text_setter (t : pystr) : result pystr := xml_text (escape_ctrl_chars t).

(** Keys of the [updates] dictionary: [(s_idx, sh_idx, p_idx)]. *)
Abbreviation Key := (nat * nat * nat)%type.
Abbreviation Updates := (gmap (nat * nat * nat) pystr).

(** ** extract_content *)

(** The f-string [{{S{s_idx}:Sh{sh_idx}:P{p_idx}}} || {text}] *)
Definition format_line (s_idx sh_idx p_idx : nat) (txt : pystr) : pystr :=
  str "{S" ++ str_nat s_idx ++ str ":Sh" ++ str_nat sh_idx ++ str ":P" ++ str_nat p_idx
    ++ str "} || " ++ txt.

(** The texts of [paragraph.runs] joined with the empty string, then [.strip()] *)
Definition paragraph_text (paragraph : Paragraph) : pystr :=
  strip (concat (text <$> runs paragraph)).

Definition extract_paragraph (s_idx sh_idx : nat) (ip : nat * Paragraph) : list pystr :=
  let '(p_idx, paragraph) := ip in
  let txt := paragraph_text paragraph in
  match txt with
  | [] => []
  | _ => [format_line s_idx sh_idx p_idx txt]
  end.

Definition extract_shape (s_idx : nat) (ish : nat * Shape) : list pystr :=
  let '(sh_idx, shape) := ish in
  match shape with
  | OtherShape _ => []
  | TextShape paragraphs => flat_map (extract_paragraph s_idx sh_idx) (enumerate paragraphs)
  end.

Definition extract_slide (isl : nat * Slide) : list pystr :=
  let '(s_idx, slide) := isl in
  flat_map (extract_shape s_idx) (enumerate (shapes slide)).

Definition extracted_lines (prs : Presentation) : list pystr :=
  flat_map extract_slide (enumerate (slides prs)).

(** The body of [extract_content] once [Presentation(pptx_file)] has
    loaded [prs]. *)
Definition extract_content (prs : Presentation) : Presentation * pystr :=
  (prs, join [LF] (extracted_lines prs)).

(** ** apply_changes: the parse loop *)

(** A match object of [re.search] for the pattern made of group 1
    [\{S\d+:Sh\d+:P\d+\}], then [\s*\|\|\s*], then group 2 [.*]. *)
Record Match := mkMatch { group1 : pystr; group2 : pystr }.

Definition literal (lit s : pystr) : option pystr :=
  if startswith s lit then Some (drop (length lit) s) else None.

(** [\d+] *)
Definition digits1 (s : pystr) : option (pystr * pystr) :=
  match take_while is_digit s with
  | [] => None
  | d => Some (d, drop_while is_digit s)
  end.

(** A non-empty run of decimal digits: what [\d+] matches. *)
Definition digits (d : pystr) : Prop := d ≠ [] ∧ forallb is_digit d = true.

(** The text matched by group 1, given its three digit groups. *)
Definition uid_text (d1 d2 d3 : pystr) : pystr :=
  str "{S" ++ d1 ++ str ":Sh" ++ d2 ++ str ":P" ++ d3 ++ str "}".

(** [.]: any character but a line feed *)
Definition dot (c : ascii) : bool := negb (ascii_eqb c LF).

(** The pattern tried at the start of [s].  Each greedy item is followed
    by a character outside its class ([:], [}], [|]) or by the end of
    the pattern, so the longest scan is the only one that can succeed
    and no backtracking is needed. *)
Definition match_here (s : pystr) : option Match :=
  r ← literal (str "{S") s;
  '(d1, r) ← digits1 r;
  r ← literal (str ":Sh") r;
  '(d2, r) ← digits1 r;
  r ← literal (str ":P") r;
  '(d3, r) ← digits1 r;
  r ← literal (str "}") r;
  r ← literal (str "||") (drop_while is_space r);
  Some {| group1 := uid_text d1 d2 d3;
          group2 := take_while dot (drop_while is_space r) |}.

(** [re.search]: the match at the leftmost position that has one. *)
Fixpoint re_search (line : pystr) : option Match :=
  match match_here line with
  | Some m => Some m
  | None =>
      match line with
      | [] => None
      | _ :: line' => re_search line'
      end
  end.

(** The body of the [try] block. *)
Definition parse_key (parts : list pystr) : result Key :=
  p0 ← index parts 0; s_idx ← int (drop 1 p0);
  p1 ← index parts 1; sh_idx ← int (drop 2 p1);
  p2 ← index parts 2; p_idx ← int (drop 1 p2);
  mret (s_idx, sh_idx, p_idx).

(** What one line contributes: the key and the replacement text, or
    nothing when the pattern is absent or the [try] block raises
    (the bare [except: continue]). *)
Definition parse_line (line : pystr) : option (Key * pystr) :=
  match re_search line with
  | Some m =>
      let uid := group1 m in
      let new_text := strip (group2 m) in
      let parts := split (str ":") (strip_chars (str "{}") uid) in
      match parse_key parts with
      | Ok key => Some (key, new_text)
      | Raise _ => None
      end
  | None => None
  end.

(** One iteration of [for line in modified_text.split(LF)]. *)
Definition scan_line (updates : Updates) (line : pystr) : Updates :=
  match parse_line line with
  | Some (key, new_text) => <[key := new_text]> updates
  | None => updates
  end.

Definition scan_lines (lines : list pystr) : Updates := fold_left scan_line lines ∅.

Definition collect_updates (modified_text : pystr) : Updates :=
  scan_lines (split [LF] modified_text).

(** ** apply_changes: the apply loop *)

(** [runs[i].text = t] *)
Definition set_run_text (rs : list Run) (i : nat) (t : pystr) : result (list Run) :=
  r ← index rs i;
  stored ← run_text_setter t;
  mret (<[i := {| text := stored; font := font r |}]> rs).

(** [for i in idxs:] set [runs[i].text] to the empty string *)
Fixpoint clear_runs (idxs : list nat) (rs : list Run) : result (list Run) :=
  match idxs with
  | [] => mret rs
  | i :: idxs' => rs' ← set_run_text rs i []; clear_runs idxs' rs'
  end.

(** [range(a, b)] *)
Definition range (a b : nat) : list nat := seq a (b - a).

(** [paragraph.add_run()]: a new run without text after the others. *)
Definition add_run (rs : list Run) : list Run :=
  rs ++ [ {| text := []; font := default_font |} ].

(** The body of [if key in updates:].  In the second branch the run
    that [add_run()] returns is the last one. *)
Definition patch_paragraph (paragraph : Paragraph) (new_text : pystr) : result Paragraph :=
  let rs := runs paragraph in
  if 0 <? length rs then
    rs1 ← set_run_text rs 0 new_text;
    rs2 ← clear_runs (range 1 (length rs1)) rs1;
    mret {| runs := rs2 |}
  else
    rs1 ← set_run_text (add_run rs) (length rs) new_text;
    mret {| runs := rs1 |}.

Definition apply_paragraph (updates : Updates) (s_idx sh_idx : nat)
    (ip : nat * Paragraph) : result Paragraph :=
  let '(p_idx, paragraph) := ip in
  let key := (s_idx, sh_idx, p_idx) in
  match updates !! key with
  | Some new_text => patch_paragraph paragraph new_text
  | None => mret paragraph
  end.

Definition apply_shape (updates : Updates) (s_idx : nat) (ish : nat * Shape) : result Shape :=
  let '(sh_idx, shape) := ish in
  match shape with
  | OtherShape k => mret (OtherShape k)
  | TextShape paragraphs =>
      ps ← mapM (apply_paragraph updates s_idx sh_idx) (enumerate paragraphs);
      mret (TextShape ps)
  end.

Definition apply_slide (updates : Updates) (isl : nat * Slide) : result Slide :=
  let '(s_idx, slide) := isl in
  shs ← mapM (apply_shape updates s_idx) (enumerate (shapes slide));
  mret {| shapes := shs |}.

Definition apply_updates (updates : Updates) (prs : Presentation) : result Presentation :=
  sls ← mapM (apply_slide updates) (enumerate (slides prs));
  mret {| slides := sls |}.

Definition apply_changes (prs : Presentation) (modified_text : pystr) : result Presentation :=
  apply_updates (collect_updates modified_text) prs.

(** ** The stream loop of the generator tab *)

Definition SEPARATOR : pystr := str "@@@_START_SLIDE_CONTENT_@@@".

Inductive Mode := THINKING | WRITING.

Record Parser := mkParser {
  thinking_buffer : pystr;
  slide_content : pystr;
  mode : Mode
}.

Definition initial : Parser :=
  {| thinking_buffer := []; slide_content := []; mode := THINKING |}.

(** One iteration of [for chunk in stream], [content] being
    [chunk['message']['content']]. *)
Definition feed (st : Parser) (content : pystr) : Parser :=
  match mode st with
  | THINKING =>
      let buffer := thinking_buffer st ++ content in
      if contains SEPARATOR buffer then
        let parts := split SEPARATOR buffer in
        {| thinking_buffer := buffer;
           slide_content :=
             if 1 <? length parts then slide_content st ++ nth 1 parts []
             else slide_content st;
           mode := WRITING |}
      else
        {| thinking_buffer := buffer; slide_content := slide_content st; mode := THINKING |}
  | WRITING =>
      {| thinking_buffer := thinking_buffer st;
         slide_content := slide_content st ++ content;
         mode := WRITING |}
  end.

Definition consume (stream : list pystr) : Parser := fold_left feed stream initial.

(** What the page shows after the loop: nothing, the recovery warning,
    or one of the two errors. *)
Inductive Notice :=
  | Silent
  | WarnRecovered
  | ErrorNoValidLines
  | ErrorNoUpdates.

Definition is_valid_line (l : pystr) : bool :=
  contains (str "||") l && contains (str "{") l.

(** The fail-safe block: the final [slide_content] and the notice. *)
Definition fail_safe (st : Parser) : pystr * Notice :=
  match mode st with
  | WRITING => (slide_content st, Silent)
  | THINKING =>
      let buffer := thinking_buffer st in
      if contains (str "{S0") buffer || contains (str "||") buffer then
        let lines := split [LF] buffer in
        let valid_lines := filter (λ l, is_valid_line l = true) lines in
        match valid_lines with
        | [] => (slide_content st, ErrorNoValidLines)
        | _ => (join [LF] valid_lines, WarnRecovered)
        end
      else (slide_content st, ErrorNoUpdates)
  end.

(** Result of one run: the payload, the notice, and the patched
    presentation offered for download, if any.  [temp] is the freshly
    loaded [Presentation("temp.pptx")]. *)
Record Outcome := mkOutcome {
  payload : pystr;
  notice : Notice;
  download : option Presentation
}.

Definition run_transformation (temp : Presentation) (stream : list pystr) : result Outcome :=
  let '(content, note) := fail_safe (consume stream) in
  match strip content with
  | [] => mret {| payload := content; notice := note; download := None |}
  | _ =>
      updated ← apply_changes temp content;
      mret {| payload := content; notice := note; download := Some updated |}
  end.

(** ** Addressing paragraphs, and the two components described by position *)

(** The paragraph with a given key, if the presentation has one: the
    slide and the shape are counted among all slides and all shapes,
    the paragraph among the paragraphs of the shape's text frame. *)
Definition paragraph_at (prs : Presentation) (key : Key) : option Paragraph :=
  let '(s_idx, sh_idx, p_idx) := key in
  slide ← slides prs !! s_idx;
  shape ← shapes slide !! sh_idx;
  match shape with
  | TextShape paragraphs => paragraphs !! p_idx
  | OtherShape _ => None
  end.

Definition shape_count (prs : Presentation) (s_idx : nat) : nat :=
  match slides prs !! s_idx with
  | Some slide => length (shapes slide)
  | None => 0
  end.

(** Number of paragraphs of a shape; none when it has no text frame. *)
Definition paragraph_count (prs : Presentation) (s_idx sh_idx : nat) : nat :=
  match slides prs !! s_idx ≫= (λ slide, shapes slide !! sh_idx) with
  | Some (TextShape paragraphs) => length paragraphs
  | _ => 0
  end.

(** The line owed to one position: present exactly when there is a
    paragraph there whose trimmed text is non-empty. *)
Definition line_at (prs : Presentation) (s_idx sh_idx p_idx : nat) : list pystr :=
  match paragraph_at prs (s_idx, sh_idx, p_idx) with
  | Some paragraph =>
      match paragraph_text paragraph with
      | [] => []
      | txt => [format_line s_idx sh_idx p_idx txt]
      end
  | None => []
  end.

(** The lines of the extractor position by position: slide, shape,
    paragraph, each index ranging over all items of its level (lemma
    [extracted_lines_positional]). *)
Definition positional_lines (prs : Presentation) : list pystr :=
  flat_map (λ s_idx,
    flat_map (λ sh_idx,
      flat_map (λ p_idx, line_at prs s_idx sh_idx p_idx)
               (seq 0 (paragraph_count prs s_idx sh_idx)))
             (seq 0 (shape_count prs s_idx)))
           (seq 0 (length (slides prs))).

(** The runs of an addressed paragraph after the apply step. *)
Definition patched_runs (rs : list Run) (new_text : pystr) : list Run :=
  match rs with
  | [] => [ {| text := escape_ctrl_chars new_text; font := default_font |} ]
  | r :: rs' =>
      {| text := escape_ctrl_chars new_text; font := font r |}
        :: ((λ r', {| text := []; font := font r' |}) <$> rs')
  end.

Definition patched_paragraph (updates : Updates) (key : Key) (paragraph : Paragraph) : Paragraph :=
  match updates !! key with
  | Some new_text => {| runs := patched_runs (runs paragraph) new_text |}
  | None => paragraph
  end.

Definition patched_shape (updates : Updates) (s_idx : nat) (ish : nat * Shape) : Shape :=
  let '(sh_idx, shape) := ish in
  match shape with
  | TextShape paragraphs =>
      TextShape ((λ ip, patched_paragraph updates (s_idx, sh_idx, ip.1) ip.2)
                   <$> enumerate paragraphs)
  | OtherShape k => OtherShape k
  end.

Definition patched_slide (updates : Updates) (isl : nat * Slide) : Slide :=
  {| shapes := patched_shape updates isl.1 <$> enumerate (shapes isl.2) |}.

(** The presentation after the apply step, as a function of the edits
    mapping (lemma [apply_updates_ok]). *)
Definition patched (updates : Updates) (prs : Presentation) : Presentation :=
  {| slides := patched_slide updates <$> enumerate (slides prs) |}.

(** Every character of every paragraph's trimmed text satisfies [ok]. *)
Definition texts_satisfy (ok : ascii → bool) (prs : Presentation) : bool :=
  forallb (λ slide,
    forallb (λ shape,
      match shape with
      | TextShape paragraphs =>
          forallb (λ paragraph, forallb ok (paragraph_text paragraph)) paragraphs
      | OtherShape _ => true
      end) (shapes slide)) (slides prs).

(** No paragraph's trimmed text contains a line feed. *)
Definition single_line_texts (prs : Presentation) : bool := texts_satisfy dot prs.

(** A character that passes unchanged through a line of the payload and
    through the setter of [run.text]: neither a line feed nor one of the
    control characters that the setter rewrites. *)
Definition plain_char (c : ascii) : bool := dot c && negb (is_ctrl_char c).

(** No paragraph's trimmed text contains a line feed or a control
    character that the setter rewrites. *)
Definition plain_texts (prs : Presentation) : bool := texts_satisfy plain_char prs.

(** An index whose decimal form [int()] reads back: it has at most
    [max_str_digits] digits.  (The interpreter does not write a longer
    number either; no index that [enumerate] produces comes near.) *)
Definition index_fits (n : nat) : bool := length (str_nat n) <=? max_str_digits.

(** Every slide, shape and paragraph index of the presentation fits. *)
Definition indices_fit (prs : Presentation) : bool :=
  forallb (λ isl : nat * Slide,
    index_fits isl.1 &&
    forallb (λ ish : nat * Shape,
      index_fits ish.1 &&
      match ish.2 with
      | TextShape paragraphs =>
          forallb (λ ip : nat * Paragraph, index_fits ip.1) (enumerate paragraphs)
      | OtherShape _ => true
      end) (enumerate (shapes isl.2))) (enumerate (slides prs)).

(** The identifier that the pattern finds in a line, if any. *)
Definition uid_of (line : pystr) : option pystr := group1 <$> re_search line.

(** ** The extractor as its contract words it

    Written without the functions of the extractor: the numerals are
    those of the standard library's decimal printer, and the trimming,
    the shape of a line and the joining are spelled out. *)

Module Contract.

(** The decimal numeral of an index. *)
Definition numeral (n : nat) : pystr :=
  str (DecimalString.NilEmpty.string_of_uint (Nat.to_uint n)).

(** Leading white space removed. *)
Fixpoint trim_left (s : pystr) : pystr :=
  match s with
  | c :: s' => if is_space c then trim_left s' else s
  | [] => []
  end.

(** Trailing white space removed. *)
Fixpoint trim_right (s : pystr) : pystr :=
  match s with
  | [] => []
  | c :: s' =>
      match trim_right s' with
      | [] => if is_space c then [] else [c]
      | r => c :: r
      end
  end.

Definition trim (s : pystr) : pystr := trim_right (trim_left s).

(** The concatenated text of the runs of a paragraph. *)
Definition run_text (paragraph : Paragraph) : pystr :=
  foldr (λ r acc, text r ++ acc) [] (runs paragraph).

(** The line of a paragraph, given its position and its trimmed text. *)
Definition line (key : Key) (t : pystr) : pystr :=
  let '(s, sh, p) := key in
  str "{S" ++ numeral s ++ str ":Sh" ++ numeral sh ++ str ":P" ++ numeral p ++ str "} || " ++ t.

(** What one position owes: its key and trimmed text when there is a
    paragraph there and the trimmed text is not empty. *)
Definition entry_at (prs : Presentation) (key : Key) : list (Key * pystr) :=
  match paragraph_at prs key with
  | Some paragraph =>
      match trim (run_text paragraph) with
      | [] => []
      | t => [(key, t)]
      end
  | None => []
  end.

(** All positions in slide, shape, paragraph order; every slide, every
    shape (with or without a text frame) and every paragraph (empty or
    not) takes an index. *)
Definition entries (prs : Presentation) : list (Key * pystr) :=
  flat_map (λ s,
    flat_map (λ sh,
      flat_map (λ p, entry_at prs (s, sh, p))
               (seq 0 (paragraph_count prs s sh)))
             (seq 0 (shape_count prs s)))
           (seq 0 (length (slides prs))).

Definition lines (prs : Presentation) : list pystr :=
  (λ e, line e.1 e.2) <$> entries prs.

(** Lines put one after the other with a line feed between two of them. *)
Fixpoint newline_joined (ls : list pystr) : pystr :=
  match ls with
  | [] => []
  | l :: ls' =>
      match ls' with
      | [] => l
      | _ => l ++ LF :: newline_joined ls'
      end
  end.

End Contract.

(** A digit string read as a decimal number of the standard library. *)
Definition uint_digit (c : ascii) (u : Decimal.uint) : Decimal.uint :=
  match digit_val c with
  | 0 => Decimal.D0 u
  | 1 => Decimal.D1 u
  | 2 => Decimal.D2 u
  | 3 => Decimal.D3 u
  | 4 => Decimal.D4 u
  | 5 => Decimal.D5 u
  | 6 => Decimal.D6 u
  | 7 => Decimal.D7 u
  | 8 => Decimal.D8 u
  | _ => Decimal.D9 u
  end.

Definition uint_of_digits (d : pystr) : Decimal.uint := foldr uint_digit Decimal.Nil d.

(** The text after the first occurrence of [sep]; empty when there is none. *)
Definition after_first (sep s : pystr) : pystr :=
  match find sep s with
  | Some i => drop (i + length sep) s
  | None => []
  end.

(** The payload handed to the final processing step. *)
Definition final_payload (stream : list pystr) : pystr := (fail_safe (consume stream)).1.

(** ** Sample data *)

Definition sample_deck : Presentation :=
  {| slides :=
       [ {| shapes :=
              [ OtherShape 13;
                TextShape [ {| runs := [ {| text := str "Hello "; font := 1 |};
                                         {| text := str "world  "; font := 2 |} ] |};
                            {| runs := [] |};
                            {| runs := [ {| text := str "   "; font := 1 |} ] |} ] ] |};
         {| shapes := [ TextShape [ {| runs := [ {| text := str "Agenda"; font := 3 |} ] |} ] ] |} ] |}.

(** One run whose text holds a line feed. *)
Definition two_line_deck : Presentation :=
  {| slides :=
       [ {| shapes :=
              [ TextShape [ {| runs := [ {| text := str "a" ++ [LF] ++ str "b"; font := 0 |} ] |} ] ] |} ] |}.

Definition CR : ascii := "013"%char.

(** One run whose text holds a carriage return. *)
Definition cr_deck : Presentation :=
  {| slides :=
       [ {| shapes :=
              [ TextShape [ {| runs := [ {| text := str "a" ++ [CR] ++ str "b"; font := 0 |} ] |} ] ] |} ] |}.


(** A line whose slide index has one digit more than [int()] converts. *)
Definition long_index_line : pystr :=
  uid_text (replicate (S max_str_digits) "0"%char) (str "0") (str "0") ++ str " || x".

Definition duplicate_payload : pystr :=
  str "{S0:Sh0:P0} || First" ++ [LF] ++ str "{S0:Sh0:P0} || Second".

Definition chatty_payload : pystr :=
  str "note" ++ [LF] ++ str "Sure: {S0:Sh1:P0}  || Hi || there  " ++ [LF] ++ str "bye".

(** A stream that never emits the separator. *)
Definition narrated_stream : list pystr :=
  [ str "I think we should say hi." ++ [LF] ++ str "{S0:Sh0:P0} || Hi there" ++ [LF] ++ str "Done." ].

(** Two chunks of a stream in which the separator is written twice. *)
Definition first_chunk : pystr :=
  str "plan " ++ SEPARATOR ++ str "{S0:Sh0:P0} || A" ++ [LF].

Definition second_chunk : pystr :=
  SEPARATOR ++ str "{S0:Sh0:P1} || B".

(** The shape at a position among the shapes of its slide. *)
Definition shape_at (prs : Presentation) (s_idx sh_idx : nat) : option Shape :=
  slide ← slides prs !! s_idx; shapes slide !! sh_idx.

(** A payload that blanks one paragraph of [sample_deck] and rewrites another. *)
Definition blanking_payload : pystr :=
  str "{S0:Sh1:P0} ||   " ++ [LF] ++ str "{S1:Sh0:P0} || Plan".

(** The piece of [s] before the first [sep]; all of [s] when there is none. *)
Definition before_first (sep s : pystr) : pystr :=
  match find sep s with
  | Some j => take j s
  | None => s
  end.

(** The lines that the fail-safe keeps. *)
Definition valid_lines_of (buffer : pystr) : list pystr :=
  filter (λ l, is_valid_line l = true) (split [LF] buffer).

(** ** stream_with_initial_loader *)

(** What the placeholder of the chat tab can show: the spinner drawn by
    [render_status_spinner(label, color)], nothing, or an error box. *)
Inductive Widget :=
  | Spinner (label color : pystr)
  | Blank
  | ErrorBox (message : pystr).

(** What the generator does, in order: it puts a widget in the
    placeholder or yields a piece of text. *)
Inductive Effect :=
  | Show (w : Widget)
  | Yield (content : pystr).

Record Loader := mkLoader { has_started : bool; effects : list Effect }.

(** One iteration of [for chunk in stream]. *)
Definition loader_chunk (st : Loader) (content : pystr) : Loader :=
  if has_started st then
    {| has_started := true; effects := effects st ++ [Yield content] |}
  else
    {| has_started := true; effects := effects st ++ [Show Blank; Yield content] |}.

(** The generator run to its end over a backend stream that delivers
    [chunks] and then either stops or raises an exception whose text is
    [failure] (a failure of [ollama.chat] itself has no chunk). *)
Definition stream_with_initial_loader (chunks : list pystr) (failure : option pystr)
    : list Effect :=
  let st :=
    fold_left loader_chunk chunks
      {| has_started := false;
         effects := [Show (Spinner (str "Connecting to Model...") (str "#f1c40f"))] |} in
  match failure with
  | Some e => effects st ++ [Show (ErrorBox (str "Connection Error: " ++ e))]
  | None =>
      if has_started st then effects st
      else effects st ++ [Show (ErrorBox (str "Model returned no response."))]
  end.

Definition yielded (es : list Effect) : list pystr :=
  omap (λ e, match e with Yield content => Some content | Show _ => None end) es.

(** The widget left in the placeholder. *)
Definition shown (es : list Effect) : option Widget :=
  last (omap (λ e, match e with Show w => Some w | Yield _ => None end) es).

(** What [st.write_stream] returns for a generator of text: the pieces
    put together. *)
Definition write_stream (es : list Effect) : pystr := concat (yielded es).

(** ** The page: session state, the uploaded file and the widgets *)

(** The bytes of an uploaded file either load as a presentation or make
    [Presentation(...)] raise an exception with a message. *)
Inductive PptxFile :=
  | Loadable (prs : Presentation)
  | Corrupt (message : pystr).

(** [extract_content] with the [try] around the load: the presentation
    and the text, or [None] and the text of the exception. *)
Definition extract_content_file (file : PptxFile) : option Presentation * pystr :=
  match file with
  | Loadable prs => (Some (extract_content prs).1, (extract_content prs).2)
  | Corrupt message => (None, message)
  end.

Inductive Role := User | Assistant.

Record Message := mkMessage { role : Role; content : pystr }.

(** [st.session_state] of one browser session and the file [temp.pptx],
    which only this session writes. *)
Record Page := mkPage {
  chat_history : list Message;
  raw_pptx_text : pystr;
  generator_instruction : pystr;
  file_uploaded : bool;
  temp_pptx : option PptxFile
}.

Definition fresh_page : Page :=
  {| chat_history := []; raw_pptx_text := []; generator_instruction := [];
     file_uploaded := false; temp_pptx := None |}.

(** One run of the script, by the widget that fired. *)
Inductive Event :=
  | Upload (file : PptxFile)
  | UploadNewFile
  | Chat (prompt : pystr) (chunks : list pystr) (failure : option pystr)
  | UseStrategy
  | RunTransformation (instruction : pystr) (stream : list pystr).

Definition strategy_prefix : pystr :=
  str "Based on our previous chat, implement these changes." ++ [LF] ++ str "CONTEXT: ".

(** The upload section, shown while no file is loaded. *)
Definition on_upload (page : Page) (file : PptxFile) : Page :=
  if file_uploaded page then page
  else
    match extract_content_file file with
    | (Some _, txt) =>
        {| chat_history := chat_history page; raw_pptx_text := txt;
           generator_instruction := generator_instruction page;
           file_uploaded := true; temp_pptx := Some file |}
    | (None, _) =>
        {| chat_history := chat_history page; raw_pptx_text := raw_pptx_text page;
           generator_instruction := generator_instruction page;
           file_uploaded := file_uploaded page; temp_pptx := Some file |}
    end.

(** The sidebar button, shown while a file is loaded. *)
Definition on_upload_new_file (page : Page) : Page :=
  if file_uploaded page then
    {| chat_history := chat_history page; raw_pptx_text := [];
       generator_instruction := generator_instruction page;
       file_uploaded := false; temp_pptx := temp_pptx page |}
  else page.

(** The chat input of the first tab. *)
Definition on_chat (page : Page) (prompt : pystr) (chunks : list pystr)
    (failure : option pystr) : Page :=
  if file_uploaded page then
    match prompt with
    | [] => page
    | _ =>
        let full_response := write_stream (stream_with_initial_loader chunks failure) in
        {| chat_history :=
             (chat_history page ++ [ {| role := User; content := prompt |} ])
               ++ [ {| role := Assistant; content := full_response |} ];
           raw_pptx_text := raw_pptx_text page;
           generator_instruction := generator_instruction page;
           file_uploaded := file_uploaded page; temp_pptx := temp_pptx page |}
    end
  else page.

(** The button under the chat, shown once the history is not empty. *)
Definition on_use_strategy (page : Page) : Page :=
  if file_uploaded page then
    match last (chat_history page) with
    | Some last_msg =>
        {| chat_history := chat_history page; raw_pptx_text := raw_pptx_text page;
           generator_instruction := strategy_prefix ++ content last_msg;
           file_uploaded := file_uploaded page; temp_pptx := temp_pptx page |}
    | None => page
    end
  else page.

(** A run of the second tab writes nothing to the session or to the file. *)
Definition handle (page : Page) (ev : Event) : Page :=
  match ev with
  | Upload file => on_upload page file
  | UploadNewFile => on_upload_new_file page
  | Chat prompt chunks failure => on_chat page prompt chunks failure
  | UseStrategy => on_use_strategy page
  | RunTransformation _ _ => page
  end.

Definition after_events (evs : list Event) : Page := fold_left handle evs fresh_page.

(** What a run of the second tab shows. *)
Inductive TabResult :=
  | WarnNoInstruction
  | Finished (out : Outcome)
  | Failed.

(** [INSTRUCTION: ...], an empty line, [DATA:] and the extracted text. *)
Definition full_prompt (page : Page) (instruction : pystr) : pystr :=
  str "INSTRUCTION: " ++ instruction ++ [LF; LF] ++ str "DATA:" ++ [LF] ++ raw_pptx_text page.

(** The button of the second tab on a stream that the backend delivers
    in full: the loop, the fail-safe and the final processing, which
    loads [temp.pptx] only for a payload that is not blank.  A failed
    load ends in the [except] of the tab. *)
Definition generator_tab (page : Page) (instruction : pystr) (stream : list pystr) : TabResult :=
  match instruction with
  | [] => WarnNoInstruction
  | _ =>
      let '(content, note) := fail_safe (consume stream) in
      match strip content with
      | [] => Finished {| payload := content; notice := note; download := None |}
      | _ =>
          match temp_pptx page with
          | Some (Loadable prs) =>
              match apply_changes prs content with
              | Ok updated =>
                  Finished {| payload := content; notice := note; download := Some updated |}
              | Raise _ => Failed
              end
          | Some (Corrupt _) => Failed
          | None => Failed
          end
      end
  end.

(** A given character does not occur in a literal. *)
Ltac char_notin :=
  unfold str; simpl;
  repeat (apply not_elem_of_cons; split; [done|]); apply not_elem_of_nil.

(** ** Facts about the string primitives *)

Section StringFacts.

Implicit Types (s p r a b sub sep : pystr) (c d : ascii).

Lemma ascii_eqb_true c d : ascii_eqb c d = true ↔ c = d.
Proof. unfold ascii_eqb. apply bool_decide_eq_true. Qed.

Lemma ascii_eqb_refl c : ascii_eqb c c = true.
Proof. by apply ascii_eqb_true. Qed.

Lemma startswith_app p r : startswith (p ++ r) p = true.
Proof. induction p as [|c p IH]; simpl; [done|]. by rewrite ascii_eqb_refl, IH. Qed.

Lemma startswith_inv s p : startswith s p = true → s = p ++ drop (length p) s.
Proof.
  revert s. induction p as [|c p IH]; intros [|d s]; simpl; try done.
  intros [H1 H2]%andb_true_iff. apply ascii_eqb_true in H1 as ->.
  f_equal. by apply IH.
Qed.

(** *** find *)

Lemma find_unfold sub s :
  find sub s =
    if startswith s sub then Some 0
    else match s with [] => None | _ :: s' => S <$> find sub s' end.
Proof. by destruct s. Qed.

Lemma find_Some sub s i :
  find sub s = Some i →
  startswith (drop i s) sub = true ∧ ∀ j, j < i → startswith (drop j s) sub = false.
Proof.
  revert i. induction s as [|c s IH]; intros i; rewrite find_unfold.
  - destruct (startswith [] sub) eqn:E; [|done].
    intros [= <-]. split; [done | lia].
  - destruct (startswith (c :: s) sub) eqn:E.
    + intros [= <-]. split; [done | lia].
    + destruct (find sub s) as [k|] eqn:F; simpl; [|done].
      intros [= <-]. destruct (IH k eq_refl) as [H1 H2].
      split; [done|]. intros [|j] Hj; [done|]. simpl. apply H2. lia.
Qed.

Lemma find_None sub s j : find sub s = None → startswith (drop j s) sub = false.
Proof.
  revert j. induction s as [|c s IH]; intros j; rewrite find_unfold.
  - destruct (startswith [] sub) eqn:E; [done|]. by rewrite drop_nil.
  - destruct (startswith (c :: s) sub) eqn:E; [done|].
    destruct (find sub s) eqn:F; simpl; [done|].
    intros _. destruct j; [done|]. simpl. by apply IH.
Qed.

Lemma find_first sub s i :
  startswith (drop i s) sub = true →
  (∀ j, j < i → startswith (drop j s) sub = false) →
  find sub s = Some i.
Proof.
  revert i. induction s as [|c s IH]; intros i Hi Hlt; rewrite find_unfold.
  - rewrite drop_nil in Hi. rewrite Hi. destruct i as [|i]; [done|].
    pose proof (Hlt 0 ltac:(lia)) as H0. simpl in H0. congruence.
  - destruct i as [|i].
    + simpl in Hi. by rewrite Hi.
    + pose proof (Hlt 0 ltac:(lia)) as H0. simpl in H0. rewrite H0.
      rewrite (IH i); [done|done|].
      intros j Hj. apply (Hlt (S j)). lia.
Qed.

Lemma find_length sub s i : find sub s = Some i → i + length sub ≤ length s.
Proof.
  intros [H Hlt]%find_Some.
  destruct sub as [|c sub].
  - destruct i; [simpl; lia|]. by specialize (Hlt 0 ltac:(lia)).
  - apply startswith_inv in H. apply (f_equal length) in H.
    rewrite length_app, !length_drop in H. simpl in *. lia.
Qed.

(** Searching for a one-character separator. *)

Lemma find_char_here c a b : c ∉ a → find [c] (a ++ c :: b) = Some (length a).
Proof.
  induction a as [|d a IH]; intros Hc; rewrite find_unfold; simpl.
  - by rewrite ascii_eqb_refl.
  - apply not_elem_of_cons in Hc as [Hcd Hca].
    unfold ascii_eqb at 1. rewrite bool_decide_eq_false_2 by done. simpl.
    by rewrite IH.
Qed.

Lemma find_char_absent c a : c ∉ a → find [c] a = None.
Proof.
  induction a as [|d a IH]; intros Hc; rewrite find_unfold; simpl; [done|].
  apply not_elem_of_cons in Hc as [Hcd Hca].
  unfold ascii_eqb at 1. rewrite bool_decide_eq_false_2 by done. simpl.
  by rewrite IH.
Qed.

Lemma find_char_Some c s i : find [c] s = Some i → (c ∉ take i s) ∧ s !! i = Some c.
Proof.
  revert i. induction s as [|d s IH]; intros i; rewrite find_unfold; simpl; [done|].
  unfold ascii_eqb at 1. case_bool_decide as Hcd; simpl.
  - intros [= <-]. subst. split; [apply not_elem_of_nil | done].
  - destruct (find [c] s) as [k|] eqn:F; simpl; [|done].
    intros [= <-]. destruct (IH k eq_refl) as [H1 H2]. simpl.
    split; [|done]. apply not_elem_of_cons. done.
Qed.

Lemma find_char_None c s : find [c] s = None → c ∉ s.
Proof.
  induction s as [|d s IH]; rewrite find_unfold; simpl; [intros _; apply not_elem_of_nil|].
  unfold ascii_eqb at 1. case_bool_decide as Hcd; simpl; [done|].
  destruct (find [c] s) eqn:F; simpl; [done|].
  intros _. apply not_elem_of_cons. split; [done | by apply IH].
Qed.

(** *** contains *)

Lemma contains_true sub s :
  contains sub s = true ↔ ∃ a b, s = a ++ sub ++ b.
Proof.
  unfold contains. split.
  - destruct (find sub s) as [i|] eqn:F; [|done]. intros _.
    apply find_Some in F as [H _]. apply startswith_inv in H.
    exists (take i s), (drop (length sub) (drop i s)).
    by rewrite <- H, take_drop.
  - intros (a & b & ->).
    destruct (find sub (a ++ sub ++ b)) eqn:F; [done|].
    apply (find_None _ _ (length a)) in F.
    by rewrite drop_app_length, startswith_app in F.
Qed.

Lemma contains_app_l sub s r : contains sub s = true → contains sub (s ++ r) = true.
Proof.
  rewrite !contains_true. intros (a & b & ->). exists a, (b ++ r).
  by rewrite <- !app_assoc.
Qed.

Lemma contains_app_r sub s r : contains sub s = true → contains sub (r ++ s) = true.
Proof.
  rewrite !contains_true. intros (a & b & ->). exists (r ++ a), b.
  by rewrite <- !app_assoc.
Qed.

(** *** split *)

Lemma split_fuel_enough sep s n m :
  sep ≠ [] → length s ≤ n → length s ≤ m → split_fuel n sep s = split_fuel m sep s.
Proof.
  intros Hsep. revert s m. induction n as [|n IH]; intros s m Hn Hm.
  - destruct s; [|simpl in Hn; lia]. destruct m; simpl; [done|].
    by destruct sep.
  - destruct m as [|m].
    + destruct s; [|simpl in Hm; lia]. simpl.
      by destruct sep.
    + simpl. destruct (find sep s) as [i|] eqn:F; [|done].
      f_equal. apply find_length in F.
      assert (0 < length sep) by (destruct sep; [done | simpl; lia]).
      apply IH; rewrite length_drop; lia.
Qed.

Lemma split_fuel_S n sep s :
  split_fuel (S n) sep s =
    match find sep s with
    | None => [s]
    | Some i => take i s :: split_fuel n sep (drop (i + length sep) s)
    end.
Proof. done. Qed.

Lemma split_unfold sep s :
  sep ≠ [] →
  split sep s =
    match find sep s with
    | None => [s]
    | Some i => take i s :: split sep (drop (i + length sep) s)
    end.
Proof.
  intros Hsep. unfold split. destruct s as [|c s].
  - simpl. by destruct sep.
  - change (length (c :: s)) with (S (length s)). rewrite split_fuel_S.
    destruct (find sep (c :: s)) as [i|] eqn:F; [|done].
    f_equal. apply find_length in F.
    assert (0 < length sep) by (destruct sep; [done | simpl; lia]).
    apply split_fuel_enough; [done|..]; rewrite ?length_drop; simpl in *; lia.
Qed.

Lemma split_char_last c a : c ∉ a → split [c] a = [a].
Proof. intros H. rewrite split_unfold by done. by rewrite find_char_absent. Qed.

Lemma split_char_cons c a b : c ∉ a → split [c] (a ++ c :: b) = a :: split [c] b.
Proof.
  intros H. rewrite split_unfold by done. rewrite find_char_here by done.
  rewrite take_app_length. simpl length.
  replace (a ++ c :: b) with ((a ++ [c]) ++ b) by (by rewrite <- app_assoc).
  replace (length a + 1) with (length (a ++ [c])) by (rewrite length_app; simpl; lia).
  by rewrite drop_app_length.
Qed.

Lemma split_join c (ls : list pystr) :
  ls ≠ [] → Forall (λ l, c ∉ l) ls → split [c] (join [c] ls) = ls.
Proof.
  induction ls as [|l ls IH]; [done|]. intros _ Hall.
  apply Forall_cons in Hall as [Hl Hls]. destruct ls as [|l' ls].
  - simpl. by apply split_char_last.
  - change (join [c] (l :: l' :: ls)) with (l ++ c :: join [c] (l' :: ls)).
    rewrite split_char_cons by done. f_equal. by apply IH.
Qed.

Lemma split_char_no_sep c s l : l ∈ split [c] s → c ∉ l.
Proof.
  remember (length s) as n eqn:Hn. revert s Hn.
  induction (lt_wf n) as [n _ IH]. intros s -> Hl.
  rewrite split_unfold in Hl by done.
  destruct (find [c] s) as [i|] eqn:F.
  - apply elem_of_cons in Hl as [->|Hl].
    + by apply find_char_Some in F as [F _].
    + apply find_length in F. simpl in F.
      eapply (IH (length (drop (i + 1) s))); [|done|done].
      rewrite length_drop. lia.
  - apply list_elem_of_singleton in Hl as ->. by apply find_char_None.
Qed.

(** *** Greedy scans and strip *)

Section Scan.
Variable P : ascii → bool.

Lemma take_drop_while s : take_while P s ++ drop_while P s = s.
Proof. induction s as [|c s IH]; simpl; [done|]. destruct (P c); simpl; [by f_equal | done]. Qed.

Lemma take_while_all s : forallb P (take_while P s) = true.
Proof. induction s as [|c s IH]; simpl; [done|]. destruct (P c) eqn:E; simpl; [by rewrite E | done]. Qed.

Lemma take_while_app a s : forallb P a = true → take_while P (a ++ s) = a ++ take_while P s.
Proof.
  induction a as [|c a IH]; simpl; [done|]. intros [-> H]%andb_true_iff. f_equal. by apply IH.
Qed.

Lemma drop_while_app a s : forallb P a = true → drop_while P (a ++ s) = drop_while P s.
Proof.
  induction a as [|c a IH]; simpl; [done|]. intros [-> H]%andb_true_iff. by apply IH.
Qed.

Lemma take_while_id s : forallb P s = true → take_while P s = s.
Proof. intros H. rewrite <- (app_nil_r s) at 1. rewrite take_while_app by done. apply app_nil_r. Qed.

Lemma drop_while_nil s : forallb P s = true → drop_while P s = [].
Proof. intros H. rewrite <- (app_nil_r s). by rewrite drop_while_app. Qed.

Lemma drop_while_head s c : head (drop_while P s) = Some c → P c = false.
Proof.
  induction s as [|d s IH]; simpl; [done|]. destruct (P d) eqn:E; [done|].
  simpl. by intros [= <-].
Qed.

Lemma drop_while_id s : (∀ c, head s = Some c → P c = false) → drop_while P s = s.
Proof. destruct s as [|c s]; simpl; [done|]. intros H. by rewrite (H c). Qed.

Lemma drop_while_idemp s : drop_while P (drop_while P s) = drop_while P s.
Proof. apply drop_while_id, drop_while_head. Qed.

Lemma drop_while_suffix s : ∃ a, s = a ++ drop_while P s.
Proof. exists (take_while P s). by rewrite take_drop_while. Qed.

Lemma drop_while_elem s c : c ∈ drop_while P s → c ∈ s.
Proof.
  intros H. destruct (drop_while_suffix s) as [a Ha]. rewrite Ha.
  apply elem_of_app. by right.
Qed.

Lemma last_drop_while s c : last (drop_while P s) = Some c → last s = Some c.
Proof.
  destruct (drop_while_suffix s) as [a Ha]. rewrite Ha at 2.
  destruct (drop_while P s) as [|d r]; [done|].
  intros H. rewrite last_app. by rewrite H.
Qed.

Lemma strip_class_trimmed s : trimmed P (strip_class P s).
Proof.
  unfold strip_class. split; intros c.
  - rewrite head_reverse. intros H%last_drop_while.
    rewrite last_reverse in H. by apply drop_while_head in H.
  - rewrite last_reverse. apply drop_while_head.
Qed.

Lemma strip_class_id s : trimmed P s → strip_class P s = s.
Proof.
  intros [Hh Hl]. unfold strip_class. rewrite (drop_while_id s) by done.
  rewrite drop_while_id; [apply reverse_involutive|].
  intros c. rewrite head_reverse. apply Hl.
Qed.

Lemma strip_class_idemp s : strip_class P (strip_class P s) = strip_class P s.
Proof. apply strip_class_id, strip_class_trimmed. Qed.

Lemma forallb_reverse s : forallb P s = true → forallb P (reverse s) = true.
Proof.
  rewrite !forallb_forall. intros H x Hx. apply H.
  by apply list_elem_of_In, elem_of_reverse, list_elem_of_In.
Qed.

Lemma strip_class_app a s b :
  forallb P a = true → forallb P b = true → trimmed P s → strip_class P (a ++ s ++ b) = s.
Proof.
  intros Ha Hb [Hh Hl]. destruct s as [|c s].
  { unfold strip_class. simpl. rewrite drop_while_app by done.
    by rewrite (drop_while_nil b). }
  unfold strip_class. rewrite drop_while_app by done.
  rewrite (drop_while_id ((c :: s) ++ b)) by (simpl; intros ? [= <-]; by apply Hh).
  rewrite reverse_app, drop_while_app by (by apply forallb_reverse).
  rewrite drop_while_id; [apply reverse_involutive|].
  intros d. rewrite head_reverse. apply Hl.
Qed.

Lemma strip_class_drop s : strip_class P (drop_while P s) = strip_class P s.
Proof. unfold strip_class. by rewrite drop_while_idemp. Qed.

End Scan.

(** *** Decimal digits *)

Lemma digit_char_is_digit n : n < 10 → is_digit (digit_char n) = true.
Proof. intros H. do 10 (destruct n as [|n]; [done|]). lia. Qed.

Lemma digit_val_char n : n < 10 → digit_val (digit_char n) = n.
Proof. intros H. do 10 (destruct n as [|n]; [done|]). lia. Qed.

Lemma digits_value_snoc s c : digits_value (s ++ [c]) = 10 * digits_value s + digit_val c.
Proof. unfold digits_value. by rewrite fold_left_app. Qed.

Lemma str_nat_fuel_S fuel n acc :
  str_nat_fuel (S fuel) n acc =
    if n / 10 =? 0 then digit_char (n mod 10) :: acc
    else str_nat_fuel fuel (n / 10) (digit_char (n mod 10) :: acc).
Proof. done. Qed.

Lemma str_nat_fuel_spec fuel n acc :
  n < fuel →
  ∃ ds : pystr, str_nat_fuel fuel n acc = ds ++ acc ∧ ds ≠ [] ∧
       forallb is_digit ds = true ∧ digits_value ds = n.
Proof.
  revert n acc. induction fuel as [|fuel IH]; intros n acc Hn; [lia|].
  rewrite str_nat_fuel_S. pose proof (Nat.mod_upper_bound n 10 ltac:(lia)) as Hmod.
  pose proof (Nat.div_mod_eq n 10) as Hdm.
  destruct (n / 10 =? 0) eqn:E.
  - apply Nat.eqb_eq in E. exists [digit_char (n mod 10)].
    split; [done|]. split; [done|]. split.
    + cbn [forallb]. by rewrite digit_char_is_digit.
    + rewrite <- (app_nil_l [_]), digits_value_snoc, digit_val_char by done.
      unfold digits_value. cbn [fold_left]. lia.
  - apply Nat.eqb_neq in E.
    destruct (IH (n / 10) (digit_char (n mod 10) :: acc)) as (d & Hd & Hne & Hall & Hval).
    { assert (n / 10 < n) by (apply Nat.div_lt; lia). lia. }
    exists (d ++ [digit_char (n mod 10)]). split; [by rewrite Hd, <- app_assoc|].
    split; [by destruct d|]. split.
    + rewrite forallb_app, Hall. cbn [forallb]. by rewrite digit_char_is_digit.
    + rewrite digits_value_snoc, Hval, digit_val_char by done. lia.
Qed.

Lemma str_nat_spec n :
  str_nat n ≠ [] ∧ forallb is_digit (str_nat n) = true ∧ digits_value (str_nat n) = n.
Proof.
  unfold str_nat. destruct (str_nat_fuel_spec (S n) n [] ltac:(lia)) as (d & -> & ? & ? & ?).
  by rewrite app_nil_r.
Qed.

Lemma int_digits s :
  s ≠ [] → forallb is_digit s = true → length s ≤ max_str_digits →
  int s = Ok (digits_value s).
Proof.
  intros Hne Hd Hlen%Nat.leb_le. unfold int. rewrite Hd, Hlen. by destruct s.
Qed.

Lemma int_too_long s : max_str_digits < length s → int s = Raise ValueError.
Proof.
  intros Hlen%Nat.leb_gt. unfold int. rewrite Hlen.
  destruct s; [done|]. by destruct (forallb is_digit _).
Qed.

Lemma int_raises s e : int s = Raise e → e = ValueError.
Proof.
  unfold int. destruct s as [|c s]; [by intros [= <-]|].
  destruct (forallb is_digit (c :: s)); [|by intros [= <-]].
  destruct (length (c :: s) <=? max_str_digits); [done | by intros [= <-]].
Qed.

Lemma index_fits_length n : index_fits n = true → length (str_nat n) ≤ max_str_digits.
Proof. apply Nat.leb_le. Qed.

Lemma int_str_nat n : index_fits n = true → int (str_nat n) = Ok n.
Proof.
  intros Hfit%index_fits_length.
  destruct (str_nat_spec n) as (Hne & Hd & Hv). by rewrite int_digits, Hv.
Qed.

(** The first digit of a number other than zero is not a zero. *)
Lemma str_nat_fuel_head fuel n acc :
  n < fuel → n ≠ 0 → ∃ c ds, str_nat_fuel fuel n acc = c :: ds ∧ c ≠ "0"%char.
Proof.
  revert n acc. induction fuel as [|fuel IH]; intros n acc Hn Hn0; [lia|].
  rewrite str_nat_fuel_S. pose proof (Nat.div_mod_eq n 10) as Hdm.
  pose proof (Nat.mod_upper_bound n 10 ltac:(lia)) as Hmod.
  destruct (n / 10 =? 0) eqn:E.
  - apply Nat.eqb_eq in E. eexists _, _. split; [done|].
    assert (n mod 10 ≠ 0) as Hnz by lia. revert Hmod Hnz. generalize (n mod 10). intros k Hk Hnz.
    do 10 (destruct k as [|k]; [done|]). lia.
  - apply Nat.eqb_neq in E. apply IH; [|done].
    assert (n / 10 < n) by (apply Nat.div_lt; lia). lia.
Qed.

Lemma str_nat_head n : n ≠ 0 → ∃ c ds, str_nat n = c :: ds ∧ c ≠ "0"%char.
Proof. intros H. apply str_nat_fuel_head; [lia | done]. Qed.

Lemma digit_not_brace c : is_digit c = true → bool_decide (c ∈ str "{}") = false.
Proof.
  intros H. apply bool_decide_eq_false. unfold str. simpl.
  rewrite !elem_of_cons, elem_of_nil. by intros [->|[->|[]]].
Qed.

Lemma digits_no_colon s : forallb is_digit s = true → ":"%char ∉ s.
Proof.
  rewrite forallb_forall. intros H Hin. 
  apply list_elem_of_In, H in Hin. done.
Qed.

End StringFacts.

(** ** Facts about the pattern *)


Section Pattern.

Implicit Types (s r d ws rest line : pystr).

Lemma bind_Some_eq {A B} (x : A) (f : A → option B) : Some x ≫= f = f x.
Proof. done. Qed.

Lemma literal_app lit r : literal lit (lit ++ r) = Some r.
Proof. unfold literal. by rewrite startswith_app, drop_app_length. Qed.

Lemma literal_Some lit s r : literal lit s = Some r → s = lit ++ r.
Proof.
  unfold literal. destruct (startswith s lit) eqn:E; [|done].
  intros [= <-]. by apply startswith_inv.
Qed.

Lemma take_while_drop_while (P : ascii → bool) s : take_while P (drop_while P s) = [].
Proof.
  pose proof (drop_while_head P s) as H.
  destruct (drop_while P s) as [|c r]; [done|]. simpl. by rewrite (H c).
Qed.

Lemma digits1_app d r :
  digits d → take_while is_digit r = [] → digits1 (d ++ r) = Some (d, r).
Proof.
  intros [Hne Hd] Hr. unfold digits1.
  rewrite take_while_app, drop_while_app, Hr, app_nil_r by done.
  pose proof (take_drop_while is_digit r) as Hs. rewrite Hr in Hs. simpl in Hs.
  rewrite Hs. by destruct d.
Qed.

Lemma digits1_Some s d r :
  digits1 s = Some (d, r) → digits d ∧ s = d ++ r ∧ take_while is_digit r = [].
Proof.
  unfold digits1. destruct (take_while is_digit s) as [|c t] eqn:E; [done|].
  intros [= <- <-]. split; [split; [done|]|split].
  - rewrite <- E. apply take_while_all.
  - by rewrite <- E, take_drop_while.
  - apply take_while_drop_while.
Qed.

Lemma match_here_intro d1 d2 d3 ws rest :
  digits d1 → digits d2 → digits d3 → forallb is_space ws = true →
  match_here (uid_text d1 d2 d3 ++ ws ++ str "||" ++ rest)
  = Some {| group1 := uid_text d1 d2 d3;
            group2 := take_while dot (drop_while is_space rest) |}.
Proof.
  intros H1 H2 H3 Hws. unfold match_here, uid_text.
  rewrite <- !app_assoc.
  rewrite literal_app, bind_Some_eq.
  rewrite digits1_app, bind_Some_eq by done. cbv beta iota.
  rewrite literal_app, bind_Some_eq.
  rewrite digits1_app, bind_Some_eq by done. cbv beta iota.
  rewrite literal_app, bind_Some_eq.
  rewrite digits1_app, bind_Some_eq by done. cbv beta iota.
  rewrite literal_app, bind_Some_eq.
  rewrite drop_while_app by done.
  change (drop_while is_space (str "||" ++ rest)) with (str "||" ++ rest).
  by rewrite literal_app, bind_Some_eq.
Qed.

Lemma match_here_inv s m :
  match_here s = Some m →
  ∃ d1 d2 d3 ws rest,
    s = uid_text d1 d2 d3 ++ ws ++ str "||" ++ rest ∧
    digits d1 ∧ digits d2 ∧ digits d3 ∧ forallb is_space ws = true ∧
    m = {| group1 := uid_text d1 d2 d3;
           group2 := take_while dot (drop_while is_space rest) |}.
Proof.
  unfold match_here. intros H.
  destruct (literal (str "{S") s) as [r1|] eqn:L1; [|done]. rewrite bind_Some_eq in H.
  destruct (digits1 r1) as [[d1 r2]|] eqn:D1; [|done]. rewrite bind_Some_eq in H.
  cbv beta iota in H.
  destruct (literal (str ":Sh") r2) as [r3|] eqn:L2; [|done]. rewrite bind_Some_eq in H.
  destruct (digits1 r3) as [[d2 r4]|] eqn:D2; [|done]. rewrite bind_Some_eq in H.
  cbv beta iota in H.
  destruct (literal (str ":P") r4) as [r5|] eqn:L3; [|done]. rewrite bind_Some_eq in H.
  destruct (digits1 r5) as [[d3 r6]|] eqn:D3; [|done]. rewrite bind_Some_eq in H.
  cbv beta iota in H.
  destruct (literal (str "}") r6) as [r7|] eqn:L4; [|done]. rewrite bind_Some_eq in H.
  destruct (literal (str "||") (drop_while is_space r7)) as [r8|] eqn:L5; [|done].
  rewrite bind_Some_eq in H. injection H as <-.
  apply literal_Some in L1, L2, L3, L4, L5.
  apply digits1_Some in D1 as (? & ? & _), D2 as (? & ? & _), D3 as (? & ? & _).
  exists d1, d2, d3, (take_while is_space r7), r8.
  split; [|by rewrite take_while_all].
  subst. unfold uid_text. rewrite <- !app_assoc. do 7 f_equal.
  by rewrite <- L5, take_drop_while.
Qed.

Lemma re_search_unfold line :
  re_search line =
    match match_here line with
    | Some m => Some m
    | None => match line with [] => None | _ :: line' => re_search line' end
    end.
Proof. by destruct line. Qed.

Lemma re_search_here s m : match_here s = Some m → re_search s = Some m.
Proof. intros H. by rewrite re_search_unfold, H. Qed.

Lemma re_search_skip pre s :
  (∀ j, j < length pre → match_here (drop j (pre ++ s)) = None) →
  re_search (pre ++ s) = re_search s.
Proof.
  induction pre as [|c pre IH]; intros H; [done|].
  rewrite re_search_unfold.
  pose proof (H 0 ltac:(simpl; lia)) as H0. simpl in H0. simpl. rewrite H0.
  apply IH. intros j Hj. apply (H (S j)). simpl. lia.
Qed.

Lemma re_search_Some line m :
  re_search line = Some m →
  ∃ i, match_here (drop i line) = Some m ∧ ∀ j, j < i → match_here (drop j line) = None.
Proof.
  induction line as [|c line IH]; rewrite re_search_unfold.
  - destruct (match_here []) eqn:E; [|done]. intros [= <-]. exists 0. split; [done|lia].
  - destruct (match_here (c :: line)) eqn:E.
    + intros [= <-]. exists 0. split; [done|lia].
    + intros (i & Hi & Hlt)%IH. exists (S i). split; [done|].
      intros [|j] Hj; [done|]. apply Hlt. lia.
Qed.

Lemma re_search_is_Some line i :
  is_Some (match_here (drop i line)) → is_Some (re_search line).
Proof.
  revert i. induction line as [|c line IH]; intros i Hi; rewrite re_search_unfold.
  - rewrite drop_nil in Hi. destruct Hi as [m ->]. done.
  - destruct (match_here (c :: line)) eqn:E; [done|].
    destruct i as [|i]; [simpl in Hi; rewrite E in Hi; by destruct Hi|].
    by apply (IH i).
Qed.

(** The pieces of an identifier that the pattern can match. *)
Lemma uid_parts d1 d2 d3 :
  digits d1 → digits d2 → digits d3 →
  split (str ":") (strip_chars (str "{}") (uid_text d1 d2 d3))
  = [str "S" ++ d1; str "Sh" ++ d2; str "P" ++ d3].
Proof.
  intros [N1 D1] [N2 D2] [N3 D3].
  assert (strip_chars (str "{}") (uid_text d1 d2 d3)
          = str "S" ++ d1 ++ str ":Sh" ++ d2 ++ str ":P" ++ d3) as ->.
  { unfold strip_chars.
    replace (uid_text d1 d2 d3)
      with (str "{" ++ (str "S" ++ d1 ++ str ":Sh" ++ d2 ++ str ":P" ++ d3) ++ str "}")
      by (unfold uid_text; by rewrite <- !app_assoc).
    apply strip_class_app; [done|done|]. split; intros c.
    - simpl. by intros [= <-].
    - destruct d3 as [|x d3 _] using rev_ind; [done|].
      rewrite !app_assoc, last_snoc. intros [= <-].
      apply digit_not_brace. rewrite forallb_app in D3.
      apply andb_true_iff in D3 as [_ D3]. simpl in D3. by destruct (is_digit x). }
  replace (str "S" ++ d1 ++ str ":Sh" ++ d2 ++ str ":P" ++ d3)
    with ((str "S" ++ d1) ++ ":"%char :: (str "Sh" ++ d2) ++ ":"%char :: (str "P" ++ d3))
    by (by rewrite <- !app_assoc).
  assert (∀ pre d, ":"%char ∉ pre → forallb is_digit d = true → ":"%char ∉ pre ++ d) as Hno.
  { intros pre d Hpre Hd. apply not_elem_of_app. split; [done | by apply digits_no_colon]. }
  change (str ":") with [":"%char].
  by rewrite !split_char_cons, split_char_last by (apply Hno; [char_notin | done]).
Qed.

Lemma parse_key_parts d1 d2 d3 :
  parse_key [str "S" ++ d1; str "Sh" ++ d2; str "P" ++ d3]
  = (s_idx ← int d1; sh_idx ← int d2; p_idx ← int d3; mret (s_idx, sh_idx, p_idx)).
Proof. done. Qed.

(** The [try] block succeeds on an identifier that the pattern can match
    when no index has more than [max_str_digits] digits ... *)
Lemma parse_uid d1 d2 d3 :
  digits d1 → digits d2 → digits d3 →
  length d1 ≤ max_str_digits → length d2 ≤ max_str_digits → length d3 ≤ max_str_digits →
  parse_key (split (str ":") (strip_chars (str "{}") (uid_text d1 d2 d3)))
  = Ok (digits_value d1, digits_value d2, digits_value d3).
Proof.
  intros H1 H2 H3 L1 L2 L3. rewrite uid_parts, parse_key_parts by done.
  destruct H1, H2, H3. by rewrite !int_digits by done.
Qed.

(** ... and raises, into the bare [except], when one has more. *)
Lemma parse_uid_long d1 d2 d3 :
  digits d1 → digits d2 → digits d3 →
  max_str_digits < length d1 ∨ max_str_digits < length d2 ∨ max_str_digits < length d3 →
  parse_key (split (str ":") (strip_chars (str "{}") (uid_text d1 d2 d3)))
  = Raise ValueError.
Proof.
  intros H1 H2 H3 Hlong. rewrite uid_parts, parse_key_parts by done.
  destruct (int d1) as [s_idx|e1] eqn:E1; [|by rewrite (int_raises _ _ E1)].
  destruct (int d2) as [sh_idx|e2] eqn:E2; [|by rewrite (int_raises _ _ E2)].
  destruct Hlong as [L|[L|L]]; [by rewrite int_too_long in E1 | by rewrite int_too_long in E2 |].
  simpl. by rewrite int_too_long.
Qed.

Lemma parse_line_intro d1 d2 d3 ws rest :
  digits d1 → digits d2 → digits d3 → forallb is_space ws = true →
  length d1 ≤ max_str_digits → length d2 ≤ max_str_digits → length d3 ≤ max_str_digits →
  parse_line (uid_text d1 d2 d3 ++ ws ++ str "||" ++ rest)
  = Some ((digits_value d1, digits_value d2, digits_value d3),
          strip (take_while dot (drop_while is_space rest))).
Proof.
  intros H1 H2 H3 Hws L1 L2 L3. unfold parse_line.
  rewrite (re_search_here _ _ (match_here_intro d1 d2 d3 ws rest H1 H2 H3 Hws)).
  cbn [group1 group2]. by rewrite parse_uid.
Qed.

Lemma parse_line_long d1 d2 d3 ws rest :
  digits d1 → digits d2 → digits d3 → forallb is_space ws = true →
  max_str_digits < length d1 ∨ max_str_digits < length d2 ∨ max_str_digits < length d3 →
  parse_line (uid_text d1 d2 d3 ++ ws ++ str "||" ++ rest) = None.
Proof.
  intros H1 H2 H3 Hws Hlong. unfold parse_line.
  rewrite (re_search_here _ _ (match_here_intro d1 d2 d3 ws rest H1 H2 H3 Hws)).
  cbn [group1 group2]. by rewrite parse_uid_long.
Qed.

Lemma take_while_dot s : LF ∉ s → take_while dot s = s.
Proof.
  intros H. apply take_while_id, forallb_forall. intros c Hc%list_elem_of_In.
  unfold dot, ascii_eqb. apply negb_true_iff, bool_decide_eq_false. by intros ->.
Qed.

Lemma digits_str_nat n : digits (str_nat n).
Proof. destruct (str_nat_spec n) as (? & ? & _). by split. Qed.

Lemma format_line_uid s_idx sh_idx p_idx txt :
  format_line s_idx sh_idx p_idx txt
  = uid_text (str_nat s_idx) (str_nat sh_idx) (str_nat p_idx)
      ++ str " " ++ str "||" ++ (str " " ++ txt).
Proof. unfold format_line, uid_text. by rewrite <- !app_assoc. Qed.

(** A line written by the extractor reads back as its own key ... *)
Lemma parse_line_format_key s_idx sh_idx p_idx txt :
  index_fits s_idx = true → index_fits sh_idx = true → index_fits p_idx = true →
  ∃ new_text,
    parse_line (format_line s_idx sh_idx p_idx txt) = Some ((s_idx, sh_idx, p_idx), new_text).
Proof.
  intros F1%index_fits_length F2%index_fits_length F3%index_fits_length.
  rewrite format_line_uid.
  rewrite parse_line_intro by (apply digits_str_nat || done).
  destruct (str_nat_spec s_idx) as (_ & _ & ->).
  destruct (str_nat_spec sh_idx) as (_ & _ & ->).
  destruct (str_nat_spec p_idx) as (_ & _ & ->).
  by eexists.
Qed.

(** ... and as its own text when the text is trimmed and holds no line feed. *)
Lemma parse_line_format s_idx sh_idx p_idx txt :
  index_fits s_idx = true → index_fits sh_idx = true → index_fits p_idx = true →
  trimmed is_space txt → LF ∉ txt →
  parse_line (format_line s_idx sh_idx p_idx txt) = Some ((s_idx, sh_idx, p_idx), txt).
Proof.
  intros F1%index_fits_length F2%index_fits_length F3%index_fits_length Htrim Hlf.
  rewrite format_line_uid.
  rewrite parse_line_intro by (apply digits_str_nat || done).
  destruct (str_nat_spec s_idx) as (_ & _ & ->).
  destruct (str_nat_spec sh_idx) as (_ & _ & ->).
  destruct (str_nat_spec p_idx) as (_ & _ & ->).
  change (drop_while is_space (str " " ++ txt)) with (drop_while is_space txt).
  rewrite (drop_while_id is_space txt) by apply Htrim.
  rewrite take_while_dot by done. unfold strip. by rewrite strip_class_id.
Qed.

(** The identifier that the pattern finds in a line of the extractor. *)
Lemma uid_of_format_line s_idx sh_idx p_idx txt :
  uid_of (format_line s_idx sh_idx p_idx txt)
  = Some (uid_text (str_nat s_idx) (str_nat sh_idx) (str_nat p_idx)).
Proof.
  unfold uid_of. rewrite format_line_uid.
  by rewrite (re_search_here _ _
                (match_here_intro _ _ _ (str " ") (str " " ++ txt) (digits_str_nat s_idx)
                   (digits_str_nat sh_idx) (digits_str_nat p_idx) eq_refl)).
Qed.

Lemma str_nat_inj n m : str_nat n = str_nat m → n = m.
Proof.
  intros H. destruct (str_nat_spec n) as (_ & _ & <-), (str_nat_spec m) as (_ & _ & <-).
  by rewrite H.
Qed.

(** Identifiers of different positions differ. *)
Lemma uid_text_str_nat_inj (n1 n2 n3 m1 m2 m3 : nat) :
  uid_text (str_nat n1) (str_nat n2) (str_nat n3) = uid_text (str_nat m1) (str_nat m2) (str_nat m3) →
  (n1, n2, n3) = (m1, m2, m3).
Proof.
  intros H.
  pose proof (uid_parts _ _ _ (digits_str_nat n1) (digits_str_nat n2) (digits_str_nat n3)) as E.
  rewrite H, uid_parts in E by apply digits_str_nat.
  injection E as E1 E2 E3.
  apply str_nat_inj in E1, E2, E3. congruence.
Qed.

End Pattern.

(** ** Facts about presentations *)

Section Documents.

Implicit Types (prs : Presentation) (updates : Updates) (key : Key).

Lemma enumerate_from_lookup {A} i (l : list A) j :
  enumerate_from i l !! j = (λ x, (i + j, x)) <$> l !! j.
Proof.
  revert i j. induction l as [|x l IH]; intros i [|j]; simpl; try done.
  - by rewrite Nat.add_0_r.
  - rewrite IH. by replace (S i + j) with (i + S j) by lia.
Qed.

Lemma enumerate_lookup {A} (l : list A) j : enumerate l !! j = (λ x, (j, x)) <$> l !! j.
Proof. apply enumerate_from_lookup. Qed.

Lemma enumerate_from_length {A} i (l : list A) : length (enumerate_from i l) = length l.
Proof. revert i. induction l; intros i; simpl; [done|]. by f_equal. Qed.

Lemma flat_map_ext_elem {A B} (f g : A → list B) (l : list A) :
  (∀ x, x ∈ l → f x = g x) → flat_map f l = flat_map g l.
Proof.
  induction l as [|x l IH]; intros H; simpl; [done|].
  rewrite (H x) by apply list_elem_of_here. f_equal.
  apply IH. intros y Hy. apply H. by apply list_elem_of_further.
Qed.

Lemma flat_map_enumerate_from {A B} (f : nat * A → list B) i (l : list A) :
  flat_map f (enumerate_from i l)
  = flat_map (λ j, match l !! (j - i) with Some x => f (j, x) | None => [] end)
             (seq i (length l)).
Proof.
  revert i. induction l as [|x l IH]; intros i; simpl; [done|].
  rewrite Nat.sub_diag. simpl. f_equal. rewrite IH.
  apply flat_map_ext_elem. intros j Hj%elem_of_seq.
  by replace (j - i) with (S (j - S i)) by lia.
Qed.

Lemma flat_map_enumerate {A B} (f : nat * A → list B) (l : list A) :
  flat_map f (enumerate l)
  = flat_map (λ j, match l !! j with Some x => f (j, x) | None => [] end)
             (seq 0 (length l)).
Proof.
  unfold enumerate. rewrite flat_map_enumerate_from.
  apply flat_map_ext_elem. intros j _. by rewrite Nat.sub_0_r.
Qed.

(** The extractor, position by position. *)
Lemma extracted_lines_positional prs : extracted_lines prs = positional_lines prs.
Proof.
  unfold extracted_lines, positional_lines. rewrite flat_map_enumerate.
  apply flat_map_ext_elem. intros s _. unfold shape_count.
  destruct (slides prs !! s) as [slide|] eqn:Es; [|done].
  unfold extract_slide. rewrite flat_map_enumerate.
  apply flat_map_ext_elem. intros sh _. unfold paragraph_count. rewrite Es. simpl.
  destruct (shapes slide !! sh) as [[paragraphs|k]|] eqn:Esh; [|done..].
  unfold extract_shape. rewrite flat_map_enumerate.
  apply flat_map_ext_elem. intros p _. unfold line_at, paragraph_at.
  rewrite Es. simpl. rewrite Esh. simpl.
  destruct (paragraphs !! p) as [paragraph|]; [|done].
  simpl. by destruct (paragraph_text paragraph).
Qed.

(** *** The apply loop never raises and computes [patched] *)

Lemma mapM_Ok {A B} (f : A → result B) (g : A → B) (l : list A) :
  (∀ x, x ∈ l → f x = Ok (g x)) → mapM f l = Ok (g <$> l).
Proof.
  induction l as [|x l IH]; intros H; [done|].
  simpl. rewrite (H x) by apply list_elem_of_here. simpl.
  rewrite IH; [done|]. intros y Hy. apply H. by apply list_elem_of_further.
Qed.

(** Once the control characters are escaped, the XML layer accepts
    every character of the alphabet. *)
Lemma escape_char_xml (c : ascii) :
  forallb (λ c', xml_char (N_of_ascii c')) (escape_char c) = true.
Proof. destruct c as [[] [] [] [] [] [] [] []]; vm_compute; reflexivity. Qed.

Lemma run_text_setter_ok (t : pystr) : run_text_setter t = Ok (escape_ctrl_chars t).
Proof.
  unfold run_text_setter, xml_text.
  assert (forallb (λ c, xml_char (N_of_ascii c)) (escape_ctrl_chars t) = true) as ->; [|done].
  induction t as [|c t IH]; [done|].
  unfold escape_ctrl_chars in *. cbn [flat_map]. by rewrite forallb_app, escape_char_xml, IH.
Qed.

Lemma escape_ctrl_chars_app (a b : pystr) :
  escape_ctrl_chars (a ++ b) = escape_ctrl_chars a ++ escape_ctrl_chars b.
Proof. apply flat_map_app. Qed.

(** A text without control characters is stored as it is. *)
Lemma escape_ctrl_chars_id (t : pystr) :
  forallb (λ c, negb (is_ctrl_char c)) t = true → escape_ctrl_chars t = t.
Proof.
  induction t as [|c t IH]; [done|]. cbn [forallb].
  intros [Hc Ht]%andb_true_iff. unfold escape_ctrl_chars in *. cbn [flat_map].
  rewrite IH by done. unfold escape_char. apply negb_true_iff in Hc. by rewrite Hc.
Qed.

Lemma escape_char_ends (c : ascii) :
  is_space c = false →
  ∃ x y (m : pystr), head (escape_char c) = Some x ∧ last (escape_char c) = Some y ∧
                     is_space x = false ∧ is_space y = false.
Proof.
  intros Hc. unfold escape_char. destruct (is_ctrl_char c).
  - exists "_"%char, "_"%char, []. by split.
  - exists c, c, []. by split.
Qed.

(** Escaping keeps a trimmed text trimmed. *)
Lemma escape_ctrl_chars_trimmed (t : pystr) :
  trimmed is_space t → trimmed is_space (escape_ctrl_chars t).
Proof.
  intros [Hh Hl]. split; intros x.
  - destruct t as [|c t]; [done|].
    destruct (escape_char_ends c (Hh c eq_refl)) as (x' & _ & _ & Hx & _ & Hs & _).
    unfold escape_ctrl_chars. cbn [flat_map].
    destruct (escape_char c) as [|z zs]; [done|]. simpl in *. intros [= <-]. congruence.
  - destruct t as [|c t _] using rev_ind; [done|].
    rewrite last_snoc in Hl.
    destruct (escape_char_ends c (Hl c eq_refl)) as (_ & y' & _ & _ & Hy & _ & Hs).
    rewrite escape_ctrl_chars_app. unfold escape_ctrl_chars at 2. cbn [flat_map].
    rewrite app_nil_r, last_app, Hy. intros [= <-]. done.
Qed.

Lemma set_run_text_middle (pre rs : list Run) r t :
  set_run_text (pre ++ r :: rs) (length pre) t
  = Ok (pre ++ {| text := escape_ctrl_chars t; font := font r |} :: rs).
Proof.
  unfold set_run_text, index. rewrite list_lookup_middle by done.
  rewrite run_text_setter_ok. simpl.
  by rewrite insert_app_r_alt, Nat.sub_diag by lia.
Qed.

Lemma clear_runs_seq (pre rs : list Run) :
  clear_runs (seq (length pre) (length rs)) (pre ++ rs)
  = Ok (pre ++ ((λ r', {| text := []; font := font r' |}) <$> rs)).
Proof.
  revert pre. induction rs as [|r rs IH]; intros pre; [done|].
  simpl. rewrite set_run_text_middle. simpl.
  replace (S (length pre)) with (length (pre ++ [{| text := []; font := font r |}]))
    by (rewrite length_app; simpl; lia).
  rewrite (cons_middle _ pre rs), app_assoc, IH. by rewrite <- app_assoc.
Qed.

Lemma patch_paragraph_ok paragraph new_text :
  patch_paragraph paragraph new_text
  = Ok {| runs := patched_runs (runs paragraph) new_text |}.
Proof.
  unfold patch_paragraph. destruct (runs paragraph) as [|r rs].
  - change (0 <? length []) with false. cbv iota.
    by rewrite (set_run_text_middle [] [] {| text := []; font := default_font |}).
  - change (0 <? length (r :: rs)) with true. cbv iota.
    rewrite (set_run_text_middle [] rs r).
    pose proof (clear_runs_seq [{| text := escape_ctrl_chars new_text; font := font r |}] rs) as H.
    unfold range. simpl in *. rewrite Nat.sub_0_r. by rewrite H.
Qed.

Lemma apply_paragraph_ok updates s sh (ip : nat * Paragraph) :
  apply_paragraph updates s sh ip = Ok (patched_paragraph updates (s, sh, ip.1) ip.2).
Proof.
  destruct ip as [p paragraph]. unfold apply_paragraph, patched_paragraph. simpl.
  destruct (updates !! (s, sh, p)); [apply patch_paragraph_ok | done].
Qed.

Lemma apply_shape_ok updates s (ish : nat * Shape) :
  apply_shape updates s ish = Ok (patched_shape updates s ish).
Proof.
  destruct ish as [sh [paragraphs|k]]; simpl; [|done].
  rewrite (mapM_Ok _ (λ ip, patched_paragraph updates (s, sh, ip.1) ip.2)); [done|].
  intros ip _. apply apply_paragraph_ok.
Qed.

Lemma apply_slide_ok updates (isl : nat * Slide) :
  apply_slide updates isl = Ok (patched_slide updates isl).
Proof.
  destruct isl as [s slide]. unfold apply_slide.
  rewrite (mapM_Ok _ (patched_shape updates s)); [done|].
  intros ish _. apply apply_shape_ok.
Qed.

Lemma apply_updates_ok updates prs : apply_updates updates prs = Ok (patched updates prs).
Proof.
  unfold apply_updates. rewrite (mapM_Ok _ (patched_slide updates)); [done|].
  intros isl _. apply apply_slide_ok.
Qed.

Lemma apply_changes_ok prs modified_text :
  apply_changes prs modified_text = Ok (patched (collect_updates modified_text) prs).
Proof. apply apply_updates_ok. Qed.

(** *** Reading the patched presentation *)

Lemma slides_patched updates prs s :
  slides (patched updates prs) !! s
  = (λ slide, patched_slide updates (s, slide)) <$> slides prs !! s.
Proof.
  unfold patched. simpl. rewrite list_lookup_fmap, enumerate_lookup.
  by destruct (slides prs !! s).
Qed.

Lemma shapes_patched updates s slide sh :
  shapes (patched_slide updates (s, slide)) !! sh
  = (λ shape, patched_shape updates s (sh, shape)) <$> shapes slide !! sh.
Proof.
  unfold patched_slide. simpl. rewrite list_lookup_fmap, enumerate_lookup.
  by destruct (shapes slide !! sh).
Qed.

Lemma paragraph_at_patched updates prs key :
  paragraph_at (patched updates prs) key
  = patched_paragraph updates key <$> paragraph_at prs key.
Proof.
  destruct key as [[s sh] p]. unfold paragraph_at. rewrite slides_patched.
  destruct (slides prs !! s) as [slide|]; [|done]. simpl.
  rewrite list_lookup_fmap, enumerate_lookup.
  destruct (shapes slide !! sh) as [[paragraphs|k]|]; [|done..]. simpl.
  rewrite list_lookup_fmap, enumerate_lookup. by destruct (paragraphs !! p).
Qed.

Lemma slide_count_patched updates prs :
  length (slides (patched updates prs)) = length (slides prs).
Proof. unfold patched, enumerate. simpl. by rewrite length_fmap, enumerate_from_length. Qed.

Lemma shape_count_patched updates prs s :
  shape_count (patched updates prs) s = shape_count prs s.
Proof.
  unfold shape_count. rewrite slides_patched.
  destruct (slides prs !! s) as [slide|]; [|done]. simpl.
  unfold enumerate. by rewrite length_fmap, enumerate_from_length.
Qed.

Lemma paragraph_count_patched updates prs s sh :
  paragraph_count (patched updates prs) s sh = paragraph_count prs s sh.
Proof.
  unfold paragraph_count. rewrite slides_patched.
  destruct (slides prs !! s) as [slide|]; [|done]. simpl.
  rewrite list_lookup_fmap, enumerate_lookup.
  destruct (shapes slide !! sh) as [[paragraphs|k]|]; [|done..]. simpl.
  unfold enumerate. by rewrite length_fmap, enumerate_from_length.
Qed.

(** Only the entries of the mapping that address a paragraph matter. *)
Lemma patched_ext updates1 updates2 prs :
  (∀ key, is_Some (paragraph_at prs key) → updates1 !! key = updates2 !! key) →
  patched updates1 prs = patched updates2 prs.
Proof.
  intros H. unfold patched. f_equal. apply list_fmap_ext.
  intros i [s slide] Hs. rewrite enumerate_lookup in Hs.
  destruct (slides prs !! i) as [slide'|] eqn:Es; [|done]. injection Hs as <- <-.
  unfold patched_slide. f_equal. simpl. apply list_fmap_ext.
  intros j [sh shape] Hsh. rewrite enumerate_lookup in Hsh.
  destruct (shapes slide' !! j) as [shape'|] eqn:Esh; [|done]. injection Hsh as <- <-.
  destruct shape' as [paragraphs|k]; [|done]. simpl. f_equal. apply list_fmap_ext.
  intros n [p paragraph] Hp. rewrite enumerate_lookup in Hp.
  destruct (paragraphs !! n) as [paragraph'|] eqn:Ep; [|done]. injection Hp as <- <-.
  unfold patched_paragraph. simpl. rewrite H; [done|].
  unfold paragraph_at. rewrite Es. simpl. rewrite Esh. simpl. by rewrite Ep.
Qed.

(** Two presentations of the same shape whose paragraphs have the same
    trimmed texts extract to the same lines. *)
Lemma positional_lines_ext prs1 prs2 :
  length (slides prs1) = length (slides prs2) →
  (∀ s, shape_count prs1 s = shape_count prs2 s) →
  (∀ s sh, paragraph_count prs1 s sh = paragraph_count prs2 s sh) →
  (∀ key, paragraph_text <$> paragraph_at prs1 key = paragraph_text <$> paragraph_at prs2 key) →
  positional_lines prs1 = positional_lines prs2.
Proof.
  intros H1 H2 H3 H4. unfold positional_lines. rewrite H1.
  apply flat_map_ext_elem. intros s _. rewrite H2.
  apply flat_map_ext_elem. intros sh _. rewrite H3.
  apply flat_map_ext_elem. intros p _. unfold line_at.
  specialize (H4 (s, sh, p)).
  destruct (paragraph_at prs1 (s, sh, p)), (paragraph_at prs2 (s, sh, p)); simpl in H4; try done.
  by injection H4 as ->.
Qed.

(** Where an extracted line comes from. *)
Lemma positional_lines_elem prs line :
  line ∈ positional_lines prs →
  ∃ s sh p paragraph,
    paragraph_at prs (s, sh, p) = Some paragraph ∧
    paragraph_text paragraph ≠ [] ∧
    line = format_line s sh p (paragraph_text paragraph).
Proof.
  unfold positional_lines. rewrite list_elem_of_In.
  intros (s & _ & (sh & _ & (p & _ & H)%in_flat_map)%in_flat_map)%in_flat_map.
  unfold line_at in H. destruct (paragraph_at prs (s, sh, p)) as [paragraph|] eqn:E; [|done].
  exists s, sh, p, paragraph. split; [done|].
  destruct (paragraph_text paragraph) as [|c t]; [done|].
  apply list_elem_of_In, list_elem_of_singleton in H. by split.
Qed.

Lemma texts_satisfy_at (ok : ascii → bool) prs key paragraph :
  texts_satisfy ok prs = true → paragraph_at prs key = Some paragraph →
  forallb ok (paragraph_text paragraph) = true.
Proof.
  destruct key as [[s sh] p]. unfold texts_satisfy, paragraph_at.
  rewrite forallb_forall. intros H Hp.
  destruct (slides prs !! s) as [slide|] eqn:Es; [|done]. simpl in Hp.
  apply list_elem_of_lookup_2, list_elem_of_In, H in Es.
  rewrite forallb_forall in Es.
  destruct (shapes slide !! sh) as [[paragraphs|k]|] eqn:Esh; [|done..]. simpl in Hp.
  apply list_elem_of_lookup_2, list_elem_of_In, Es in Esh.
  rewrite forallb_forall in Esh.
  by apply list_elem_of_lookup_2, list_elem_of_In, Esh in Hp.
Qed.

Lemma dot_no_LF (t : pystr) : forallb dot t = true → LF ∉ t.
Proof. rewrite forallb_forall. intros H Hin%list_elem_of_In%H. done. Qed.

Lemma single_line_texts_at prs key paragraph :
  single_line_texts prs = true → paragraph_at prs key = Some paragraph →
  LF ∉ paragraph_text paragraph.
Proof. intros H Hp. eapply dot_no_LF, texts_satisfy_at; done. Qed.

Lemma forallb_weaken {A} (P Q : A → bool) (l : list A) :
  (∀ x, P x = true → Q x = true) → forallb P l = true → forallb Q l = true.
Proof. rewrite !forallb_forall. intros H Hl x Hx. by apply H, Hl. Qed.

Lemma plain_texts_at prs key paragraph :
  plain_texts prs = true → paragraph_at prs key = Some paragraph →
  (LF ∉ paragraph_text paragraph) ∧
  escape_ctrl_chars (paragraph_text paragraph) = paragraph_text paragraph.
Proof.
  intros H Hp. pose proof (texts_satisfy_at _ _ _ _ H Hp) as Hall. split.
  - apply dot_no_LF. revert Hall. apply forallb_weaken. by intros c [? _]%andb_true_iff.
  - apply escape_ctrl_chars_id. revert Hall. apply forallb_weaken.
    by intros c [_ ?]%andb_true_iff.
Qed.

Lemma plain_texts_single_line prs : plain_texts prs = true → single_line_texts prs = true.
Proof.
  unfold plain_texts, single_line_texts, texts_satisfy.
  apply forallb_weaken. intros slide. apply forallb_weaken. intros [paragraphs|k]; [|done].
  apply forallb_weaken. intros paragraph. apply forallb_weaken.
  by intros c [? _]%andb_true_iff.
Qed.

Lemma enumerate_elem {A} (l : list A) j x : l !! j = Some x → In (j, x) (enumerate l).
Proof.
  intros H. apply list_elem_of_In, (list_elem_of_lookup_2 _ j).
  by rewrite enumerate_lookup, H.
Qed.

(** The indices of an addressed paragraph fit when all indices do. *)
Lemma indices_fit_at prs s sh p paragraph :
  indices_fit prs = true → paragraph_at prs (s, sh, p) = Some paragraph →
  index_fits s = true ∧ index_fits sh = true ∧ index_fits p = true.
Proof.
  unfold indices_fit, paragraph_at. rewrite forallb_forall. intros H Hp.
  destruct (slides prs !! s) as [slide|] eqn:Es; [|done]. simpl in Hp.
  apply enumerate_elem, H in Es. cbn [fst snd] in Es.
  apply andb_true_iff in Es as [Fs Es]. rewrite forallb_forall in Es.
  destruct (shapes slide !! sh) as [[paragraphs|k]|] eqn:Esh; [|done..]. simpl in Hp.
  apply enumerate_elem, Es in Esh. cbn [fst snd] in Esh.
  apply andb_true_iff in Esh as [Fsh Esh]. rewrite forallb_forall in Esh.
  by apply enumerate_elem, Esh in Hp.
Qed.

Lemma concat_patched_runs (rs : list Run) new_text :
  concat (text <$> patched_runs rs new_text) = escape_ctrl_chars new_text.
Proof.
  destruct rs as [|r rs]; simpl; [apply app_nil_r|].
  rewrite <- (app_nil_r (escape_ctrl_chars new_text)) at 2. f_equal.
  induction rs as [|r' rs IH]; simpl; done.
Qed.

(** The trimmed text of a patched paragraph, for a trimmed replacement. *)
Lemma paragraph_text_patched (rs : list Run) new_text :
  strip new_text = new_text →
  paragraph_text {| runs := patched_runs rs new_text |} = escape_ctrl_chars new_text.
Proof.
  intros H. unfold paragraph_text. cbn [runs]. rewrite concat_patched_runs.
  apply strip_class_id, escape_ctrl_chars_trimmed. rewrite <- H. apply strip_class_trimmed.
Qed.

End Documents.

(** ** Facts about the edits mapping *)

Section Edits.

Implicit Types (updates : Updates) (key : Key) (lines : list pystr) (line : pystr).

Lemma scan_lines_app lines1 lines2 :
  scan_lines (lines1 ++ lines2) = fold_left scan_line lines2 (scan_lines lines1).
Proof. unfold scan_lines. apply fold_left_app. Qed.

Lemma scan_line_insert updates line key new_text :
  parse_line line = Some (key, new_text) →
  scan_line updates line = <[key := new_text]> updates.
Proof. unfold scan_line. by intros ->. Qed.

(** Lines that do not address [key] leave its entry alone. *)
Lemma fold_scan_other lines updates key :
  (∀ line new_text, line ∈ lines → parse_line line ≠ Some (key, new_text)) →
  fold_left scan_line lines updates !! key = updates !! key.
Proof.
  revert updates. induction lines as [|line lines IH]; intros updates H; [done|].
  simpl. rewrite IH by (intros l t Hl; apply H; by apply list_elem_of_further).
  unfold scan_line. destruct (parse_line line) as [[k t]|] eqn:E; [|done].
  apply lookup_insert_ne. intros ->. by eapply (H line t); [apply list_elem_of_here|].
Qed.

(** Every entry of the mapping comes from some line. *)
Lemma fold_scan_sound (Q : Key → pystr → Prop) lines updates :
  (∀ line key new_text, line ∈ lines → parse_line line = Some (key, new_text) → Q key new_text) →
  (∀ key new_text, updates !! key = Some new_text → Q key new_text) →
  ∀ key new_text, fold_left scan_line lines updates !! key = Some new_text → Q key new_text.
Proof.
  revert updates. induction lines as [|line lines IH]; intros updates Hl Hu; [done|].
  simpl. apply IH; [intros l k t Hin; apply Hl; by apply list_elem_of_further|].
  intros key new_text. unfold scan_line.
  destruct (parse_line line) as [[k t]|] eqn:E; [|apply Hu].
  destruct (decide (k = key)) as [->|Hne].
  - rewrite lookup_insert_eq. intros [= <-]. by apply (Hl line); [apply list_elem_of_here|].
  - rewrite lookup_insert_ne by done. apply Hu.
Qed.

(** The lines of a payload assembled with line feeds. *)
Lemma collect_updates_join lines :
  Forall (λ line, LF ∉ line) lines → collect_updates (join [LF] lines) = scan_lines lines.
Proof.
  intros H. unfold collect_updates. destruct lines as [|line lines]; [done|].
  by rewrite split_join.
Qed.

(** Two mappings that agree on a key still agree on it after the same lines. *)
Lemma fold_scan_agree lines updates1 updates2 key :
  updates1 !! key = updates2 !! key →
  fold_left scan_line lines updates1 !! key = fold_left scan_line lines updates2 !! key.
Proof.
  revert updates1 updates2. induction lines as [|line lines IH]; intros u1 u2 H; [done|].
  simpl. apply IH. unfold scan_line.
  destruct (parse_line line) as [[k t]|]; [|done].
  destruct (decide (k = key)) as [->|Hne].
  - by rewrite !lookup_insert_eq.
  - by rewrite !lookup_insert_ne.
Qed.

(** Dropping a line changes the mapping at most at the key of that line. *)
Lemma scan_lines_drop_line lines1 line lines2 key :
  (∀ new_text, parse_line line ≠ Some (key, new_text)) →
  scan_lines (lines1 ++ line :: lines2) !! key = scan_lines (lines1 ++ lines2) !! key.
Proof.
  intros H. rewrite !scan_lines_app. simpl. apply fold_scan_agree.
  unfold scan_line. destruct (parse_line line) as [[k t]|] eqn:E; [|done].
  apply lookup_insert_ne. intros ->. by apply (H t).
Qed.

Lemma scan_lines_last lines1 line lines2 key new_text :
  parse_line line = Some (key, new_text) →
  (∀ l t, l ∈ lines2 → parse_line l ≠ Some (key, t)) →
  scan_lines (lines1 ++ line :: lines2) !! key = Some new_text.
Proof.
  intros H Hlater. rewrite scan_lines_app. simpl.
  rewrite fold_scan_other by (intros l t Hl; by apply Hlater).
  rewrite (scan_line_insert _ _ _ _ H). apply lookup_insert_eq.
Qed.

End Edits.

(** ** Facts about the stream loop *)

Section Stream.

Implicit Types (st : Parser) (stream : list pystr) (content s sep : pystr).

Lemma split_elem_substring sep s l :
  sep ≠ [] → l ∈ split sep s → ∃ a b, s = a ++ l ++ b.
Proof.
  intros Hsep. remember (length s) as n eqn:Hn. revert s Hn.
  induction (lt_wf n) as [n _ IH]. intros s -> Hl.
  rewrite split_unfold in Hl by done.
  destruct (find sep s) as [i|] eqn:F.
  - apply elem_of_cons in Hl as [->|Hl].
    + exists [], (drop i s). simpl. by rewrite take_drop.
    + apply find_length in F.
      assert (0 < length sep) by (destruct sep; [done | simpl; lia]).
      destruct (IH (length (drop (i + length sep) s))
                  ltac:(rewrite length_drop; lia) _ eq_refl Hl) as (a & b & Hab).
      exists (take (i + length sep) s ++ a), b.
      rewrite <- app_assoc, <- Hab. by rewrite take_drop.
  - apply list_elem_of_singleton in Hl as ->. exists [], []. simpl. by rewrite app_nil_r.
Qed.

Lemma contains_line sub s l :
  l ∈ split [LF] s → contains sub l = true → contains sub s = true.
Proof.
  intros (a & b & ->)%split_elem_substring Hl; [|done].
  by apply contains_app_r, contains_app_l.
Qed.

Lemma contains_false_app_l sub s r : contains sub (s ++ r) = false → contains sub s = false.
Proof.
  intros H. destruct (contains sub s) eqn:E; [|done].
  by rewrite (contains_app_l _ _ r E) in H.
Qed.

(** While the separator has not shown up the loop only accumulates. *)
Lemma consume_thinking stream st :
  mode st = THINKING →
  contains SEPARATOR (thinking_buffer st ++ concat stream) = false →
  fold_left feed stream st
  = {| thinking_buffer := thinking_buffer st ++ concat stream;
       slide_content := slide_content st;
       mode := THINKING |}.
Proof.
  revert st. induction stream as [|content stream IH]; intros [tb sc m] Hm Hno; simpl in *.
  - subst. by rewrite app_nil_r.
  - subst m. unfold feed at 2. simpl.
    rewrite app_assoc in Hno.
    rewrite (contains_false_app_l _ _ _ Hno).
    rewrite IH; simpl; [by rewrite <- app_assoc | done | done].
Qed.

(** Once in [WRITING] mode every chunk is appended to the payload. *)
Lemma consume_writing stream st :
  mode st = WRITING →
  fold_left feed stream st
  = {| thinking_buffer := thinking_buffer st;
       slide_content := slide_content st ++ concat stream;
       mode := WRITING |}.
Proof.
  revert st. induction stream as [|content stream IH]; intros [tb sc m] Hm; simpl in *.
  - subst. by rewrite app_nil_r.
  - subst m. unfold feed at 2. simpl. rewrite IH by done. simpl. by rewrite <- app_assoc.
Qed.

Lemma consume_no_separator stream :
  contains SEPARATOR (concat stream) = false →
  consume stream
  = {| thinking_buffer := concat stream; slide_content := []; mode := THINKING |}.
Proof. intros H. unfold consume. by rewrite consume_thinking. Qed.

(** *** Streams in which the separator is not repeated *)

Lemma startswith_app_within p x b :
  length p ≤ length x → startswith (x ++ b) p = startswith x p.
Proof.
  revert x. induction p as [|c p IH]; intros [|d x] H; simpl in *; try done; [lia|].
  rewrite IH by lia. done.
Qed.

Lemma find_app_l sub a b i : find sub a = Some i → find sub (a ++ b) = Some i.
Proof.
  intros H. pose proof (find_length _ _ _ H) as Hlen.
  apply find_Some in H as [Hi Hlt]. apply find_first.
  - rewrite drop_app_le by lia. rewrite startswith_app_within; [done|].
    rewrite length_drop. lia.
  - intros j Hj. rewrite drop_app_le by lia. rewrite startswith_app_within.
    + by apply Hlt.
    + rewrite length_drop. lia.
Qed.

Lemma feed_unrepeated st content i :
  mode st = THINKING →
  find SEPARATOR (thinking_buffer st ++ content) = Some i →
  contains SEPARATOR (drop (i + length SEPARATOR) (thinking_buffer st ++ content)) = false →
  feed st content
  = {| thinking_buffer := thinking_buffer st ++ content;
       slide_content :=
         slide_content st ++ drop (i + length SEPARATOR) (thinking_buffer st ++ content);
       mode := WRITING |}.
Proof.
  intros Hm Hf Hrest. unfold feed. rewrite Hm.
  unfold contains at 1. rewrite Hf.
  rewrite split_unfold, Hf by done.
  rewrite (split_unfold SEPARATOR (drop _ _)) by done.
  unfold contains in Hrest.
  destruct (find SEPARATOR (drop (i + length SEPARATOR) (thinking_buffer st ++ content)));
    [done|]. done.
Qed.

Lemma consume_unrepeated stream st i :
  mode st = THINKING →
  contains SEPARATOR (thinking_buffer st) = false →
  find SEPARATOR (thinking_buffer st ++ concat stream) = Some i →
  contains SEPARATOR (drop (i + length SEPARATOR) (thinking_buffer st ++ concat stream)) = false →
  mode (fold_left feed stream st) = WRITING ∧
  slide_content (fold_left feed stream st)
  = slide_content st ++ drop (i + length SEPARATOR) (thinking_buffer st ++ concat stream).
Proof.
  revert st. induction stream as [|content stream IH]; intros st Hm Hno Hf Hrest.
  - simpl in Hf. rewrite app_nil_r in Hf. unfold contains in Hno. by rewrite Hf in Hno.
  - cbn [concat fold_left] in *. rewrite app_assoc in Hf, Hrest.
    destruct (contains SEPARATOR (thinking_buffer st ++ content)) eqn:C.
    + unfold contains in C.
      destruct (find SEPARATOR (thinking_buffer st ++ content)) as [i'|] eqn:F; [|done].
      pose proof (find_app_l _ _ (concat stream) _ F) as F'.
      rewrite Hf in F'. injection F' as ->.
      pose proof (find_length _ _ _ F) as Hlen.
      rewrite drop_app_le in Hrest by done.
      rewrite (feed_unrepeated st content i' Hm F (contains_false_app_l _ _ _ Hrest)).
      rewrite consume_writing by done. cbn [mode slide_content thinking_buffer].
      split; [done|].
      rewrite (app_assoc (thinking_buffer st) content).
      rewrite (drop_app_le _ _ _ Hlen).
      by rewrite <- app_assoc.
    + assert (feed st content
              = {| thinking_buffer := thinking_buffer st ++ content;
                   slide_content := slide_content st; mode := THINKING |}) as ->
        by (unfold feed; by rewrite Hm, C).
      destruct (IH {| thinking_buffer := thinking_buffer st ++ content;
                      slide_content := slide_content st; mode := THINKING |})
        as [H1 H2]; try done.
      split; [done|]. rewrite H2. cbn [mode slide_content thinking_buffer].
      by rewrite <- app_assoc.
Qed.

Lemma final_payload_writing stream :
  mode (consume stream) = WRITING → final_payload stream = slide_content (consume stream).
Proof. intros H. unfold final_payload, fail_safe. by rewrite H. Qed.

(** When no separator follows the first one, the payload does not depend
    on how the text is cut into chunks. *)
Lemma chunking_unrepeated stream :
  contains SEPARATOR (after_first SEPARATOR (concat stream)) = false →
  final_payload stream = final_payload [concat stream].
Proof.
  unfold after_first. intros H.
  destruct (find SEPARATOR (concat stream)) as [i|] eqn:F.
  - destruct (consume_unrepeated stream initial i) as [H1 H2]; try done.
    destruct (consume_unrepeated [concat stream] initial i) as [H3 H4]; try done.
    { simpl. by rewrite app_nil_r. }
    { simpl. by rewrite app_nil_r. }
    rewrite !final_payload_writing by done. unfold consume. rewrite H2, H4.
    cbn [concat]. by rewrite app_nil_r.
  - assert (contains SEPARATOR (concat stream) = false) as Hno
      by (unfold contains; by rewrite F).
    unfold final_payload. rewrite (consume_no_separator _ Hno).
    rewrite (consume_no_separator [concat stream]) by (simpl; by rewrite app_nil_r).
    simpl. by rewrite app_nil_r.
Qed.

(** With a single occurrence, all the text after the separator becomes payload. *)
Lemma feed_single_occurrence content :
  contains SEPARATOR content = true →
  contains SEPARATOR (after_first SEPARATOR content) = false →
  feed initial content
  = {| thinking_buffer := content;
       slide_content := after_first SEPARATOR content;
       mode := WRITING |}.
Proof.
  unfold after_first, contains at 1. intros Hc Hrest.
  destruct (find SEPARATOR content) as [i|] eqn:F; [|done].
  by rewrite (feed_unrepeated initial content i).
Qed.

End Stream.

(** ** The contract of the extractor and its code *)

Section ContractFacts.

Implicit Types (prs : Presentation) (s d : pystr) (c : ascii).

(** *** Numerals *)

Lemma uint_digit_char c (u : Decimal.uint) :
  is_digit c = true →
  DecimalString.NilEmpty.string_of_uint (uint_digit c u)
  = String c (DecimalString.NilEmpty.string_of_uint u).
Proof.
  destruct c as [[] [] [] [] [] [] [] []]; intros H;
    try (vm_compute in H; discriminate H); reflexivity.
Qed.

Lemma uint_of_digits_chars d :
  forallb is_digit d = true →
  str (DecimalString.NilEmpty.string_of_uint (uint_of_digits d)) = d.
Proof.
  induction d as [|c d IH]; [done|]. cbn [forallb]. intros [Hc Hd]%andb_true_iff.
  unfold uint_of_digits. cbn [foldr]. rewrite uint_digit_char by done.
  unfold str. cbn [list_ascii_of_string]. f_equal. by apply IH.
Qed.

Lemma uint_digit_value c (u : Decimal.uint) (acc : nat) :
  is_digit c = true →
  Nat.of_uint_acc (uint_digit c u) acc = Nat.of_uint_acc u (10 * acc + digit_val c).
Proof.
  destruct c as [[] [] [] [] [] [] [] []]; intros H;
    try (vm_compute in H; discriminate H); clear H;
    unfold uint_digit; set (k := digit_val _); vm_compute in k; subst k;
    cbn [Nat.of_uint_acc]; rewrite Nat.tail_mul_spec; f_equal; lia.
Qed.

Lemma uint_of_digits_value d (acc : nat) :
  forallb is_digit d = true →
  Nat.of_uint_acc (uint_of_digits d) acc = fold_left (λ a c, 10 * a + digit_val c) d acc.
Proof.
  revert acc. induction d as [|c d IH]; intros acc; [done|]. cbn [forallb].
  intros [Hc Hd]%andb_true_iff. unfold uint_of_digits. cbn [foldr fold_left].
  rewrite uint_digit_value by done. by apply IH.
Qed.

Lemma uint_digit_norm c (u : Decimal.uint) :
  is_digit c = true → c ≠ "0"%char → Decimal.unorm (uint_digit c u) = uint_digit c u.
Proof.
  destruct c as [[] [] [] [] [] [] [] []]; intros H Hc;
    try (vm_compute in H; discriminate H); try done; reflexivity.
Qed.

(** The numeral of the contract is the text that the code writes for an index. *)
Lemma numeral_str_nat (n : nat) : Contract.numeral n = str_nat n.
Proof.
  unfold Contract.numeral. destruct (str_nat_spec n) as (Hne & Hd & Hv).
  assert (Nat.to_uint n = uint_of_digits (str_nat n)) as ->; [|by apply uint_of_digits_chars].
  assert (Nat.of_uint (uint_of_digits (str_nat n)) = n) as Hof.
  { unfold Nat.of_uint. by rewrite uint_of_digits_value. }
  rewrite <- Hof at 1. rewrite DecimalNat.Unsigned.to_of.
  destruct (decide (n = 0)) as [->|Hn]; [reflexivity|].
  destruct (str_nat_head n Hn) as (c & ds & E & Hc). rewrite E in *.
  cbn [forallb] in Hd. apply andb_true_iff in Hd as [Hd _].
  unfold uint_of_digits. cbn [foldr]. by apply uint_digit_norm.
Qed.

(** *** Trimming, the text of a paragraph, joining *)

Lemma trim_left_drop_while s : Contract.trim_left s = drop_while is_space s.
Proof. induction s as [|c s IH]; simpl; [done|]. by destruct (is_space c). Qed.

Lemma drop_while_snoc (P : ascii → bool) s c :
  drop_while P (s ++ [c])
  = match drop_while P s with
    | [] => if P c then [] else [c]
    | r => r ++ [c]
    end.
Proof.
  induction s as [|x s IH]; simpl; [by destruct (P c)|].
  destruct (P x); [exact IH | done].
Qed.

Lemma trim_right_reverse s : Contract.trim_right s = reverse (drop_while is_space (reverse s)).
Proof.
  induction s as [|c s IH]; [done|].
  cbn [Contract.trim_right]. rewrite IH, reverse_cons, drop_while_snoc.
  destruct (drop_while is_space (reverse s)) as [|x r] eqn:E.
  - rewrite reverse_nil. by destruct (is_space c).
  - destruct (reverse (x :: r)) as [|y r'] eqn:E'.
    + apply (f_equal length) in E'. by rewrite length_reverse in E'.
    + by rewrite reverse_app, E'.
Qed.

Lemma trim_strip s : Contract.trim s = strip s.
Proof.
  unfold Contract.trim, strip, strip_class. by rewrite trim_right_reverse, trim_left_drop_while.
Qed.

Lemma run_text_concat (paragraph : Paragraph) :
  Contract.run_text paragraph = concat (text <$> runs paragraph).
Proof.
  unfold Contract.run_text. induction (runs paragraph) as [|r rs IH]; simpl; [done|].
  by rewrite IH.
Qed.

Lemma trim_run_text (paragraph : Paragraph) :
  Contract.trim (Contract.run_text paragraph) = paragraph_text paragraph.
Proof. unfold paragraph_text. by rewrite trim_strip, run_text_concat. Qed.

Lemma newline_joined_join (ls : list pystr) : Contract.newline_joined ls = join [LF] ls.
Proof.
  induction ls as [|l ls IH]; [done|]. cbn [Contract.newline_joined]. rewrite IH.
  by destruct ls.
Qed.

(** *** Lines *)

Lemma contract_line_format (s_idx sh_idx p_idx : nat) (t : pystr) :
  Contract.line (s_idx, sh_idx, p_idx) t = format_line s_idx sh_idx p_idx t.
Proof. unfold Contract.line, format_line. by rewrite !numeral_str_nat. Qed.

Lemma fmap_flat_map {A B C} (f : B → C) (g : A → list B) (l : list A) :
  f <$> flat_map g l = flat_map (λ x, f <$> g x) l.
Proof. induction l as [|x l IH]; simpl; [done|]. by rewrite fmap_app, IH. Qed.

Lemma contract_entry_line prs (s_idx sh_idx p_idx : nat) :
  (λ e, Contract.line e.1 e.2) <$> Contract.entry_at prs (s_idx, sh_idx, p_idx)
  = line_at prs s_idx sh_idx p_idx.
Proof.
  unfold Contract.entry_at, line_at.
  destruct (paragraph_at prs (s_idx, sh_idx, p_idx)) as [paragraph|]; [|done].
  rewrite trim_run_text. destruct (paragraph_text paragraph) as [|c t]; [done|].
  cbn [fmap list_fmap fst snd]. by rewrite contract_line_format.
Qed.

Lemma contract_lines_positional prs : Contract.lines prs = positional_lines prs.
Proof.
  unfold Contract.lines, Contract.entries, positional_lines.
  rewrite fmap_flat_map. apply flat_map_ext_elem. intros s_idx _.
  rewrite fmap_flat_map. apply flat_map_ext_elem. intros sh_idx _.
  rewrite fmap_flat_map. apply flat_map_ext_elem. intros p_idx _.
  apply contract_entry_line.
Qed.

(** The code returns the lines of the contract. *)
Lemma extract_content_contract prs :
  extract_content prs = (prs, Contract.newline_joined (Contract.lines prs)).
Proof.
  unfold extract_content.
  by rewrite newline_joined_join, contract_lines_positional, extracted_lines_positional.
Qed.

(** Where an entry of the contract comes from. *)
Lemma contract_entries_elem prs (key : Key) (t : pystr) :
  (key, t) ∈ Contract.entries prs →
  ∃ paragraph, paragraph_at prs key = Some paragraph ∧
               t = Contract.trim (Contract.run_text paragraph) ∧ t ≠ [].
Proof.
  unfold Contract.entries. rewrite list_elem_of_In.
  intros (s_idx & _ & (sh_idx & _ & (p_idx & _ & H)%in_flat_map)%in_flat_map)%in_flat_map.
  unfold Contract.entry_at in H.
  destruct (paragraph_at prs (s_idx, sh_idx, p_idx)) as [paragraph|] eqn:E; [|done].
  destruct (Contract.trim (Contract.run_text paragraph)) as [|c r] eqn:T; [done|].
  destruct H as [[= <- <-]|[]]. exists paragraph. by rewrite T.
Qed.

End ContractFacts.

(** ** The extractor *)

Lemma digits_no_LF (d : pystr) : forallb is_digit d = true → LF ∉ d.
Proof. rewrite forallb_forall. intros H Hin. apply list_elem_of_In, H in Hin. done. Qed.

Lemma format_line_no_LF s_idx sh_idx p_idx txt :
  LF ∉ txt → LF ∉ format_line s_idx sh_idx p_idx txt.
Proof.
  intros H. unfold format_line.
  destruct (str_nat_spec s_idx) as (_ & D1 & _).
  destruct (str_nat_spec sh_idx) as (_ & D2 & _).
  destruct (str_nat_spec p_idx) as (_ & D3 & _).
  repeat (apply not_elem_of_app; split); try (by apply digits_no_LF); try done;
    char_notin.
Qed.

(** The lines of the text that the extractor returns, when no trimmed
    text holds a line feed and there is a line at all. *)
Lemma extract_content_split (prs : Presentation) :
  single_line_texts prs = true → extracted_lines prs ≠ [] →
  split [LF] (extract_content prs).2 = extracted_lines prs.
Proof.
  intros Hsl Hne. unfold extract_content. cbn [snd]. apply split_join; [done|].
  rewrite extracted_lines_positional. apply Forall_forall.
  intros line (s & sh & p & paragraph & Hp & _ & ->)%positional_lines_elem.
  apply format_line_no_LF. by eapply single_line_texts_at.
Qed.

(** Claim C5. For every presentation, [extract_content] returns the
    presentation and the lines of the contract joined by line feeds:
    for the positions in slide, shape, paragraph order, one line
    [{S<s>:Sh<sh>:P<p>} || <trimmed text>] for each paragraph whose
    concatenated run text is not empty once trimmed, and none for the
    others; the indices count every slide, every shape (with or without
    a text frame) and every paragraph (empty or not).  When no trimmed
    text holds a line feed, these lines are the lines of the returned
    text, so that it has exactly one line for each such paragraph. *)
Theorem C5_extractor_contract (prs : Presentation) :
  extract_content prs = (prs, Contract.newline_joined (Contract.lines prs)) ∧
  (Forall (λ e, LF ∉ e.2) (Contract.entries prs) → Contract.entries prs ≠ [] →
   split [LF] (extract_content prs).2 = Contract.lines prs).
Proof.
  split; [apply extract_content_contract|].
  intros Hlf Hne. rewrite extract_content_contract. cbn [snd].
  rewrite newline_joined_join. apply split_join.
  - unfold Contract.lines. by destruct (Contract.entries prs).
  - unfold Contract.lines. apply Forall_fmap. eapply Forall_impl; [exact Hlf|].
    intros [[[s_idx sh_idx] p_idx] t] Ht. unfold compose. cbn [fst snd] in *.
    rewrite contract_line_format. by apply format_line_no_LF.
Qed.

Lemma C5_extractor_contract_witness :
  extract_content sample_deck
  = (sample_deck, str "{S0:Sh1:P0} || Hello world" ++ [LF] ++ str "{S1:Sh0:P0} || Agenda") ∧
  split [LF] (extract_content sample_deck).2
  = [str "{S0:Sh1:P0} || Hello world"; str "{S1:Sh0:P0} || Agenda"].
Proof.
  split; [exact (proj1 (C5_extractor_contract sample_deck))|].
  apply (proj2 (C5_extractor_contract sample_deck)).
  - assert (Contract.entries sample_deck
            = [ ((0, 1, 0), str "Hello world"); ((1, 0, 0), str "Agenda") ]) as ->
      by (vm_compute; reflexivity).
    apply Forall_cons. split; [|apply Forall_cons; split; [|apply Forall_nil]];
      apply (bool_decide_unpack _); vm_compute; exact I.
  - vm_compute. discriminate.
Defined.

(** ** The patcher *)




(** Claim C7. A paragraph whose key is not in the edits mapping computed from
    the payload is the same paragraph after [apply_changes]: the same
    runs with the same texts and fonts. *)
Theorem C7_non_addressed_preserved (prs : Presentation) (modified_text : pystr) (key : Key) :
  collect_updates modified_text !! key = None →
  ∃ prs', apply_changes prs modified_text = Ok prs' ∧
          paragraph_at prs' key = paragraph_at prs key.
Proof.
  intros Hu. eexists. split; [apply apply_changes_ok|].
  rewrite paragraph_at_patched. unfold patched_paragraph. rewrite Hu.
  by destruct (paragraph_at prs key).
Qed.

Lemma C7_non_addressed_preserved_witness :
  ∃ prs', apply_changes sample_deck (str "{S0:Sh1:P0} || Hi") = Ok prs' ∧
          paragraph_at prs' (1, 0, 0) = paragraph_at sample_deck (1, 0, 0).
Proof.
  apply (C7_non_addressed_preserved sample_deck (str "{S0:Sh1:P0} || Hi") (1, 0, 0)).
  vm_compute. reflexivity.
Defined.

(** Claim C8. Among the lines of a payload, the last one that parses to a
    given key decides the entry of that key in the edits mapping; and
    the payload with the key [{S0:Sh0:P0}] first on [First], then on
    [Second], leaves the text of that paragraph equal to [Second]. *)
Theorem C8_last_write_wins :
  (∀ (modified_text : pystr) (lines1 : list pystr) (line : pystr) (lines2 : list pystr)
     (key : Key) (new_text : pystr),
     split [LF] modified_text = lines1 ++ line :: lines2 →
     parse_line line = Some (key, new_text) →
     (∀ l t, l ∈ lines2 → parse_line l ≠ Some (key, t)) →
     collect_updates modified_text !! key = Some new_text)
  ∧
  (∀ (prs : Presentation) (paragraph : Paragraph),
     paragraph_at prs (0, 0, 0) = Some paragraph →
     ∃ prs' paragraph',
       apply_changes prs duplicate_payload = Ok prs' ∧
       paragraph_at prs' (0, 0, 0) = Some paragraph' ∧
       concat (text <$> runs paragraph') = str "Second").
Proof.
  split.
  - intros modified_text lines1 line lines2 key new_text Hsplit Hline Hlater.
    unfold collect_updates. rewrite Hsplit. by apply scan_lines_last.
  - intros prs paragraph Hp. eexists _, _. split; [apply apply_changes_ok|].
    rewrite paragraph_at_patched, Hp. simpl. split; [done|].
    unfold patched_paragraph.
    assert (collect_updates duplicate_payload !! (0, 0, 0) = Some (str "Second")) as ->
      by (vm_compute; reflexivity).
    cbn [runs]. by rewrite concat_patched_runs.
Qed.

Lemma C8_last_write_wins_witness :
  collect_updates duplicate_payload !! (0, 0, 0) = Some (str "Second").
Proof.
  apply (proj1 C8_last_write_wins duplicate_payload
           [str "{S0:Sh0:P0} || First"] (str "{S0:Sh0:P0} || Second") []).
  - vm_compute. reflexivity.
  - vm_compute. reflexivity.
  - intros l t Hl. by apply elem_of_nil in Hl.
Defined.

(** A line no longer than [max_str_digits] in which the pattern matches
    somewhere yields an edit. *)
Lemma parse_line_short_line (line : pystr) (i : nat) :
  is_Some (match_here (drop i line)) → length line ≤ max_str_digits →
  ∃ key new_text, parse_line line = Some (key, new_text).
Proof.
  intros Hm Hlen. destruct (re_search_is_Some line i Hm) as [m Hs].
  unfold parse_line. rewrite Hs.
  apply re_search_Some in Hs as (k & Hk & _).
  apply match_here_inv in Hk as (e1 & e2 & e3 & ws & rest & E & H1 & H2 & H3 & _ & ->).
  assert (length (uid_text e1 e2 e3) ≤ max_str_digits) as Hu.
  { apply (f_equal length) in E. rewrite length_drop, length_app in E. lia. }
  unfold uid_text in Hu. rewrite !length_app in Hu.
  cbn [group1 group2]. rewrite parse_uid by (done || lia). by eexists _, _.
Qed.

(** Claim C10, amended. The pattern is searched for anywhere in a line of the
    payload.  Take a line that holds, after any text at all, an
    identifier [{S<digits>:Sh<digits>:P<digits>}] followed by optional
    white space and [||].  If the line has no more than
    [max_str_digits] characters it is accepted as an edit.  If that
    identifier is the leftmost place of the line where the pattern
    matches and none of its three numerals has more than
    [max_str_digits] digits, the loop records, under the key that the
    numerals spell, the trimmed rest of the line after that [||],
    further [||] included; if one of the numerals is longer, [int()]
    raises and the loop skips the line. *)
Theorem C10_substring_search (modified_text line pre d1 d2 d3 ws rest : pystr) :
  line ∈ split [LF] modified_text →
  line = pre ++ uid_text d1 d2 d3 ++ ws ++ str "||" ++ rest →
  digits d1 → digits d2 → digits d3 → forallb is_space ws = true →
  (length line ≤ max_str_digits →
   ∃ key new_text,
     parse_line line = Some (key, new_text) ∧
     ∀ updates : Updates, scan_line updates line = <[key := new_text]> updates) ∧
  ((∀ j, j < length pre → match_here (drop j line) = None) →
   (length d1 ≤ max_str_digits → length d2 ≤ max_str_digits → length d3 ≤ max_str_digits →
    parse_line line
    = Some ((digits_value d1, digits_value d2, digits_value d3), strip rest) ∧
    ∀ updates : Updates,
      scan_line updates line
      = <[(digits_value d1, digits_value d2, digits_value d3) := strip rest]> updates) ∧
   (max_str_digits < length d1 ∨ max_str_digits < length d2 ∨ max_str_digits < length d3 →
    parse_line line = None ∧ ∀ updates : Updates, scan_line updates line = updates)).
Proof.
  intros Hin -> H1 H2 H3 Hws.
  pose proof (match_here_intro d1 d2 d3 ws rest H1 H2 H3 Hws) as Hm.
  split.
  { intros Hlen.
    destruct (parse_line_short_line
                (pre ++ uid_text d1 d2 d3 ++ ws ++ str "||" ++ rest) (length pre))
      as (key & new_text & Hp); [|done|].
    { rewrite drop_app_length, Hm. by eexists. }
    exists key, new_text. split; [done|]. intros updates. by apply scan_line_insert. }
  intros Hleft.
  assert (parse_line (pre ++ uid_text d1 d2 d3 ++ ws ++ str "||" ++ rest)
          = parse_line (uid_text d1 d2 d3 ++ ws ++ str "||" ++ rest)) as Hpre
    by (unfold parse_line; by rewrite re_search_skip).
  split.
  - intros L1 L2 L3.
    assert (parse_line (pre ++ uid_text d1 d2 d3 ++ ws ++ str "||" ++ rest)
            = Some ((digits_value d1, digits_value d2, digits_value d3), strip rest)) as Hp.
    { rewrite Hpre, parse_line_intro by done. do 2 f_equal.
      apply split_char_no_sep in Hin.
      assert (LF ∉ drop_while is_space rest) as Hlf.
      { intros Hr%drop_while_elem. apply Hin. rewrite !app_assoc.
        apply elem_of_app. by right. }
      rewrite take_while_dot by done. apply strip_class_drop. }
    split; [done|]. intros updates. by apply scan_line_insert.
  - intros Hlong.
    assert (parse_line (pre ++ uid_text d1 d2 d3 ++ ws ++ str "||" ++ rest) = None) as Hp
      by (by rewrite Hpre, parse_line_long).
    split; [done|]. intros updates. unfold scan_line. by rewrite Hp.
Qed.

Lemma C10_substring_search_witness :
  (∃ key new_text,
     parse_line (str "Sure: {S0:Sh1:P0}  || Hi || there  ") = Some (key, new_text) ∧
     ∀ updates : Updates,
       scan_line updates (str "Sure: {S0:Sh1:P0}  || Hi || there  ")
       = <[key := new_text]> updates) ∧
  (parse_line (str "Sure: {S0:Sh1:P0}  || Hi || there  ") = Some ((0, 1, 0), str "Hi || there") ∧
   ∀ updates : Updates,
     scan_line updates (str "Sure: {S0:Sh1:P0}  || Hi || there  ")
     = <[(0, 1, 0) := str "Hi || there"]> updates).
Proof.
  pose proof (C10_substring_search chatty_payload
                (str "Sure: {S0:Sh1:P0}  || Hi || there  ")
                (str "Sure: ") (str "0") (str "1") (str "0") (str "  ")
                (str " Hi || there  ")) as H.
  destruct H as [Hacc Hleft].
  - apply (bool_decide_unpack _). vm_compute. exact I.
  - reflexivity.
  - split; [discriminate | reflexivity].
  - split; [discriminate | reflexivity].
  - split; [discriminate | reflexivity].
  - reflexivity.
  - split.
    + apply Hacc. unfold max_str_digits. simpl. lia.
    + apply Hleft.
      * intros j Hj. do 6 (destruct j as [|j]; [vm_compute; reflexivity|]).
        simpl in Hj. lia.
      * unfold max_str_digits. simpl. lia.
      * unfold max_str_digits. simpl. lia.
      * unfold max_str_digits. simpl. lia.
Defined.

(** Claim C10 as first stated fails: a line that starts with an identifier followed
    by [||] is not accepted when its slide index has one digit more
    than [int()] converts. *)
Lemma C10_substring_search_counterexample :
  long_index_line
  = [] ++ uid_text (replicate (S max_str_digits) "0"%char) (str "0") (str "0")
       ++ str " " ++ str "||" ++ str " x" ∧
  digits (replicate (S max_str_digits) "0"%char) ∧ digits (str "0") ∧
  long_index_line ∈ split [LF] long_index_line ∧
  parse_line long_index_line = None ∧
  collect_updates long_index_line = ∅.
Proof.
  assert (split [LF] long_index_line = [long_index_line]) as Hsplit
    by (vm_compute; reflexivity).
  assert (parse_line long_index_line = None) as Hparse by (vm_compute; reflexivity).
  split; [vm_compute; reflexivity|].
  split; [split; [discriminate | vm_compute; reflexivity]|].
  split; [split; [discriminate | reflexivity]|].
  split; [rewrite Hsplit; apply list_elem_of_here|].
  split; [done|].
  unfold collect_updates. rewrite Hsplit. unfold scan_lines, scan_line. cbn [fold_left].
  by rewrite Hparse.
Qed.

(** ** The fail-safe *)



(** ** The round trip *)

(** Every entry computed from the extractor's own output carries the
    trimmed text of the paragraph it addresses. *)
Lemma updates_of_extraction (prs : Presentation) (key : Key) (new_text : pystr) :
  single_line_texts prs = true → indices_fit prs = true →
  collect_updates (join [LF] (positional_lines prs)) !! key = Some new_text →
  ∃ paragraph, paragraph_at prs key = Some paragraph ∧ new_text = paragraph_text paragraph.
Proof.
  intros Hsl Hfit. rewrite collect_updates_join.
  - unfold scan_lines. revert key new_text. apply fold_scan_sound.
    + intros line key new_text (s & sh & p & paragraph & Hp & Hne & ->)%positional_lines_elem.
      destruct (indices_fit_at _ _ _ _ _ Hfit Hp) as (F1 & F2 & F3).
      rewrite parse_line_format; [|done|done|done|..].
      * intros [= <- <-]. eauto.
      * apply strip_class_trimmed.
      * by eapply single_line_texts_at.
    + intros key new_text. by rewrite lookup_empty.
  - apply Forall_forall. intros line (s & sh & p & paragraph & Hp & Hne & ->)%positional_lines_elem.
    apply format_line_no_LF. by eapply single_line_texts_at.
Qed.

(** Claim C1, amended. For every presentation in which no paragraph's trimmed
    text contains a line feed or a control character that the setter of
    [run.text] rewrites, and whose indices are numbers that [int()]
    reads back, feeding [apply_changes] the text that [extract_content]
    produced returns a presentation whose extraction is the same text. *)
Theorem C1_round_trip (prs : Presentation) :
  plain_texts prs = true →
  indices_fit prs = true →
  ∃ prs',
    apply_changes prs (extract_content prs).2 = Ok prs' ∧
    (extract_content prs').2 = (extract_content prs).2.
Proof.
  intros Hplain Hfit. eexists. split; [apply apply_changes_ok|].
  unfold extract_content. simpl. f_equal.
  rewrite !extracted_lines_positional.
  apply positional_lines_ext.
  - apply slide_count_patched.
  - apply shape_count_patched.
  - apply paragraph_count_patched.
  - intros key. rewrite paragraph_at_patched.
    destruct (paragraph_at prs key) as [paragraph|] eqn:E; [|done]. simpl. f_equal.
    unfold patched_paragraph.
    destruct (collect_updates _ !! key) as [new_text|] eqn:U; [|done].
    apply updates_of_extraction in U as (paragraph' & E' & ->);
      [|by apply plain_texts_single_line|done].
    rewrite E in E'. injection E' as <-.
    rewrite paragraph_text_patched by apply strip_class_idemp.
    by destruct (plain_texts_at _ _ _ Hplain E) as [_ ->].
Qed.

Lemma C1_round_trip_witness :
  ∃ prs',
    apply_changes sample_deck (extract_content sample_deck).2 = Ok prs' ∧
    (extract_content prs').2 = (extract_content sample_deck).2.
Proof. apply (C1_round_trip sample_deck); vm_compute; reflexivity. Defined.

(** Claim C1 as first stated fails: a paragraph whose text spans two lines is
    non-empty, yet after the round trip only its first line is left;
    and a paragraph whose text holds a carriage return is non-empty and
    has a single line, yet after the round trip the carriage return
    reads [_x000D_]. *)
Lemma C1_round_trip_counterexample :
  ((∃ key paragraph,
      paragraph_at two_line_deck key = Some paragraph ∧ paragraph_text paragraph ≠ []) ∧
   ∃ prs',
     apply_changes two_line_deck (extract_content two_line_deck).2 = Ok prs' ∧
     (extract_content prs').2 = str "{S0:Sh0:P0} || a" ∧
     (extract_content two_line_deck).2 = str "{S0:Sh0:P0} || a" ++ [LF] ++ str "b" ∧
     (extract_content prs').2 ≠ (extract_content two_line_deck).2)
  ∧
  ((∃ key paragraph,
      paragraph_at cr_deck key = Some paragraph ∧ paragraph_text paragraph ≠ []) ∧
   single_line_texts cr_deck = true ∧
   ∃ prs',
     apply_changes cr_deck (extract_content cr_deck).2 = Ok prs' ∧
     (extract_content prs').2 = str "{S0:Sh0:P0} || a_x000D_b" ∧
     (extract_content cr_deck).2 = str "{S0:Sh0:P0} || a" ++ [CR] ++ str "b" ∧
     (extract_content prs').2 ≠ (extract_content cr_deck).2).
Proof.
  split; [split|split; [|split]].
  - exists (0, 0, 0). eexists. split; [reflexivity|]. vm_compute. discriminate.
  - eexists. split; [vm_compute; reflexivity|].
    split; [vm_compute; reflexivity|]. split; [vm_compute; reflexivity|].
    vm_compute. discriminate.
  - exists (0, 0, 0). eexists. split; [reflexivity|]. vm_compute. discriminate.
  - vm_compute. reflexivity.
  - eexists. split; [vm_compute; reflexivity|].
    split; [vm_compute; reflexivity|]. split; [vm_compute; reflexivity|].
    vm_compute. discriminate.
Qed.

(** ** The separator written twice *)

(** Claim C2, on the code. On a buffer that holds the separator twice, the loop keeps as
    payload only the text between the two occurrences; the text after
    the first occurrence is longer. *)
Theorem C2_repeated_separator :
  let st := feed initial (first_chunk ++ second_chunk) in
  mode st = WRITING ∧
  slide_content st = str "{S0:Sh0:P0} || A" ++ [LF] ∧
  after_first SEPARATOR (first_chunk ++ second_chunk)
  = str "{S0:Sh0:P0} || A" ++ [LF] ++ SEPARATOR ++ str "{S0:Sh0:P1} || B" ∧
  slide_content st ≠ after_first SEPARATOR (first_chunk ++ second_chunk).
Proof.
  split; [vm_compute; reflexivity|]. split; [vm_compute; reflexivity|].
  split; [vm_compute; reflexivity|]. vm_compute. discriminate.
Qed.

(** Claim C3, on the code. The same text gives two different payloads when it arrives as
    one chunk and when it arrives cut before the second separator. *)
Theorem C3_chunking_changes_payload :
  concat [first_chunk; second_chunk] = concat [first_chunk ++ second_chunk] ∧
  final_payload [first_chunk ++ second_chunk] = str "{S0:Sh0:P0} || A" ++ [LF] ∧
  final_payload [first_chunk; second_chunk]
  = str "{S0:Sh0:P0} || A" ++ [LF] ++ SEPARATOR ++ str "{S0:Sh0:P1} || B" ∧
  final_payload [first_chunk; second_chunk] ≠ final_payload [first_chunk ++ second_chunk].
Proof.
  split; [vm_compute; reflexivity|]. split; [vm_compute; reflexivity|].
  split; [vm_compute; reflexivity|]. vm_compute. discriminate.
Qed.

(** ** Worked examples *)

(** The separator cut across two chunks. *)
Example separator_across_chunks :
  final_payload [str "reasoning text @@@_ST"; str "ART_SLIDE_CONTENT_@@@{S0:Sh0:P0} || Hello"]
  = str "{S0:Sh0:P0} || Hello".
Proof. vm_compute. reflexivity. Qed.

(** A shape without a text frame and paragraphs without text yield no
    line and still count in the numbering. *)
Example sample_deck_extraction :
  extracted_lines sample_deck = [str "{S0:Sh1:P0} || Hello world"; str "{S1:Sh0:P0} || Agenda"].
Proof. vm_compute. reflexivity. Qed.

(** One well-formed line and one line without its closing brace. *)
Example missing_brace_tolerated :
  ∃ prs',
    apply_changes sample_deck
      (str "{S1:Sh0:P0} || Plan" ++ [LF] ++ str "{S0:Sh1:P0 || broken") = Ok prs' ∧
    paragraph_text <$> paragraph_at prs' (1, 0, 0) = Some (str "Plan") ∧
    paragraph_at prs' (0, 1, 0) = paragraph_at sample_deck (0, 1, 0).
Proof. eexists. split; [apply apply_changes_ok|]. split; vm_compute; reflexivity. Qed.

(** An empty replacement blanks the paragraph, which then has no line. *)
Example blank_replacement :
  ∃ prs',
    apply_changes sample_deck blanking_payload = Ok prs' ∧
    (extract_content prs').2 = str "{S1:Sh0:P0} || Plan".
Proof. eexists. split; [apply apply_changes_ok|]. vm_compute. reflexivity. Qed.

(** Writing an index and reading it back. *)
Example index_round_trip : int (str_nat 1203) = Ok 1203 ∧ str_nat 1203 = str "1203".
Proof. split; [apply int_str_nat|]; vm_compute; reflexivity. Qed.

(** A digit string of [max_str_digits] digits is converted, a longer one is not. *)
Example int_limit :
  int (replicate max_str_digits "7"%char) = Ok (digits_value (replicate max_str_digits "7"%char)) ∧
  int (replicate (S max_str_digits) "7"%char) = Raise ValueError.
Proof.
  split.
  - apply int_digits; [discriminate | vm_compute; reflexivity | by rewrite length_replicate].
  - apply int_too_long. rewrite length_replicate. lia.
Qed.

(** What the setter stores for a bell character, a tab and a carriage return. *)
Example setter_escapes :
  run_text_setter [ "007"%char; "009"%char; CR ] = Ok (str "_x0007_" ++ [ "009"%char ] ++ str "_x000D_").
Proof. vm_compute. reflexivity. Qed.

(** The XML layer refuses U+FFFF, which lies outside the alphabet. *)
Example xml_refuses_noncharacters :
  xml_char 65535 = false ∧ xml_char 65534 = false ∧ xml_char 55296 = false ∧
  ∀ c : ascii, is_ctrl_char c = false → xml_char (N_of_ascii c) = true.
Proof.
  split; [done|]. split; [done|]. split; [done|].
  intros c. destruct c as [[] [] [] [] [] [] [] []]; vm_compute; done.
Qed.

(** ** More about the line format *)

Section LineFormat.

Implicit Types (s_idx sh_idx p_idx : nat) (txt : pystr).

Lemma strip_class_elem (P : ascii → bool) (s : pystr) c : c ∈ strip_class P s → c ∈ s.
Proof.
  unfold strip_class. rewrite elem_of_reverse. intros H%drop_while_elem.
  rewrite elem_of_reverse in H. by apply drop_while_elem in H.
Qed.

Lemma take_while_elem (P : ascii → bool) (s : pystr) c : c ∈ take_while P s → P c = true.
Proof.
  intros H. pose proof (take_while_all P s) as Hall. rewrite forallb_forall in Hall.
  by apply Hall, list_elem_of_In.
Qed.

(** What the pattern leaves as replacement text is trimmed and holds no
    line feed, whatever the line. *)
Lemma parse_line_value line key new_text :
  parse_line line = Some (key, new_text) →
  trimmed is_space new_text ∧ (LF ∉ new_text) ∧ strip new_text = new_text.
Proof.
  unfold parse_line. destruct (re_search line) as [m|] eqn:E; [|done].
  destruct (parse_key _) as [k|]; [|done]. intros [= <- <-].
  assert (trimmed is_space (strip (group2 m))) as Ht by apply strip_class_trimmed.
  split; [done|]. split; [|by apply strip_class_id].
  intros Hin%strip_class_elem.
  apply re_search_Some in E as (i & E & _).
  apply match_here_inv in E as (d1 & d2 & d3 & ws & rest & _ & _ & _ & _ & _ & ->).
  simpl in Hin. apply take_while_elem in Hin. done.
Qed.

(** X1. The line written for a position reads back as the key of that
    position, whatever the text; and as the text itself when the text is
    trimmed and holds no line feed.  The indices are numbers that
    [int()] reads back, of at most [max_str_digits] digits, as is every
    index of a list. *)
Theorem format_then_parse s_idx sh_idx p_idx txt :
  index_fits s_idx = true → index_fits sh_idx = true → index_fits p_idx = true →
  (∃ new_text,
     parse_line (format_line s_idx sh_idx p_idx txt) = Some ((s_idx, sh_idx, p_idx), new_text)) ∧
  (trimmed is_space txt → LF ∉ txt →
   parse_line (format_line s_idx sh_idx p_idx txt) = Some ((s_idx, sh_idx, p_idx), txt)).
Proof.
  intros F1 F2 F3. split; [by apply parse_line_format_key | by apply parse_line_format].
Qed.

Lemma format_then_parse_witness :
  parse_line (format_line 12 0 3 (str "Q3 || plan")) = Some ((12, 0, 3), str "Q3 || plan").
Proof.
  apply (proj2 (format_then_parse 12 0 3 (str "Q3 || plan") eq_refl eq_refl eq_refl)).
  - split; intros c; vm_compute; intros [= <-]; reflexivity.
  - apply (bool_decide_unpack _). vm_compute. exact I.
Defined.

End LineFormat.

(** ** More about the edits mapping and the patcher *)

Section Patcher.

Implicit Types (prs : Presentation) (updates : Updates) (key : Key).

Lemma collect_updates_sound (modified_text : pystr) key (new_text : pystr) :
  collect_updates modified_text !! key = Some new_text →
  (∃ line, line ∈ split [LF] modified_text ∧ parse_line line = Some (key, new_text)) ∧
  strip new_text = new_text ∧ LF ∉ new_text.
Proof.
  unfold collect_updates, scan_lines. revert key new_text.
  apply (fold_scan_sound
           (λ key new_text,
              (∃ line, line ∈ split [LF] modified_text ∧ parse_line line = Some (key, new_text)) ∧
              strip new_text = new_text ∧ LF ∉ new_text)).
  - intros line key new_text Hin Hp. split; [by exists line|].
    by destruct (parse_line_value _ _ _ Hp) as (_ & ? & ?).
  - intros key new_text. by rewrite lookup_empty.
Qed.

(** X2. Every entry of the edits mapping is the replacement text of a
    line of the payload that parses to its key; it is trimmed and holds
    no line feed. *)
Theorem updates_entries (modified_text : pystr) key (new_text : pystr) :
  collect_updates modified_text !! key = Some new_text →
  (∃ line, line ∈ split [LF] modified_text ∧ parse_line line = Some (key, new_text)) ∧
  strip new_text = new_text ∧ LF ∉ new_text.
Proof. apply collect_updates_sound. Qed.

Lemma updates_entries_witness :
  (∃ line, line ∈ split [LF] chatty_payload ∧
           parse_line line = Some ((0, 1, 0), str "Hi || there")) ∧
  strip (str "Hi || there") = str "Hi || there" ∧ LF ∉ str "Hi || there".
Proof.
  apply (updates_entries chatty_payload (0, 1, 0) (str "Hi || there")).
  vm_compute. reflexivity.
Defined.



Lemma fmap_enumerate_id {A} (f : nat * A → A) (l : list A) :
  (∀ i x, l !! i = Some x → f (i, x) = x) → f <$> enumerate l = l.
Proof.
  intros H. apply list_eq. intros i. rewrite list_lookup_fmap, enumerate_lookup.
  destruct (l !! i) as [x|] eqn:E; [|done]. simpl. f_equal. by apply H.
Qed.

Lemma patched_empty prs : patched ∅ prs = prs.
Proof.
  destruct prs as [sls]. unfold patched. simpl. f_equal.
  apply fmap_enumerate_id. intros s [shs] _. unfold patched_slide. simpl. f_equal.
  apply fmap_enumerate_id. intros sh [paragraphs|k] _; [|done]. simpl. f_equal.
  apply fmap_enumerate_id. intros p paragraph _. done.
Qed.

(** X4. A payload none of whose lines parses to the key of an existing
    paragraph (no line matches, or every match points outside the
    presentation) leaves the presentation as it is; so does the empty
    payload. *)
Theorem no_addressed_paragraph_no_change prs (modified_text : pystr) :
  (∀ line key new_text,
     line ∈ split [LF] modified_text → parse_line line = Some (key, new_text) →
     paragraph_at prs key = None) →
  apply_changes prs modified_text = Ok prs.
Proof.
  intros H. rewrite apply_changes_ok. f_equal.
  rewrite <- (patched_empty prs) at 2. apply patched_ext.
  intros key [paragraph Hp]. rewrite lookup_empty.
  destruct (collect_updates modified_text !! key) as [new_text|] eqn:E; [|done].
  apply collect_updates_sound in E as ((line & Hin & Hl) & _).
  rewrite (H _ _ _ Hin Hl) in Hp. done.
Qed.

Lemma no_addressed_paragraph_no_change_witness :
  apply_changes sample_deck (str "Sure, here it is:" ++ [LF] ++ str "{S0:Sh0:P0} || on the picture")
  = Ok sample_deck.
Proof.
  apply no_addressed_paragraph_no_change.
  intros line key new_text Hin. vm_compute in Hin.
  apply list_elem_of_In in Hin. simpl in Hin.
  destruct Hin as [<-|[<-|[]]]; vm_compute; [discriminate|].
  intros [= <- <-]. reflexivity.
Defined.

(** *** Patching twice *)

Lemma patched_runs_twice (rs : list Run) (t1 t2 : pystr) :
  patched_runs (patched_runs rs t1) t2 = patched_runs rs t2.
Proof.
  destruct rs as [|r rs]; simpl; [done|]. f_equal.
  rewrite <- list_fmap_compose. by apply list_fmap_ext.
Qed.

Lemma patched_paragraph_union updates1 updates2 key (paragraph : Paragraph) :
  patched_paragraph updates2 key (patched_paragraph updates1 key paragraph)
  = patched_paragraph (updates2 ∪ updates1) key paragraph.
Proof.
  unfold patched_paragraph. rewrite lookup_union.
  destruct (updates2 !! key) as [t2|], (updates1 !! key) as [t1|]; simpl; try done.
  by rewrite patched_runs_twice.
Qed.

Lemma patched_union updates1 updates2 prs :
  patched updates2 (patched updates1 prs) = patched (updates2 ∪ updates1) prs.
Proof.
  unfold patched at 1 3. f_equal. apply list_eq. intros s.
  rewrite !list_lookup_fmap, !enumerate_lookup. rewrite slides_patched.
  destruct (slides prs !! s) as [slide|]; [|done]. simpl. f_equal.
  unfold patched_slide at 1 3. f_equal. simpl. apply list_eq. intros sh.
  rewrite !list_lookup_fmap, !enumerate_lookup, !list_lookup_fmap, !enumerate_lookup.
  destruct (shapes slide !! sh) as [[paragraphs|k]|]; [|done..]. simpl. do 2 f_equal.
  apply list_eq. intros p.
  rewrite !list_lookup_fmap, !enumerate_lookup, !list_lookup_fmap, !enumerate_lookup.
  destruct (paragraphs !! p) as [paragraph|]; [|done]. simpl. f_equal.
  apply patched_paragraph_union.
Qed.





(** X6. Patching a second time with the same payload changes nothing. *)
Theorem apply_changes_idempotent prs (modified_text : pystr) :
  apply_changes prs modified_text ≫= (λ prs1, apply_changes prs1 modified_text)
  = apply_changes prs modified_text.
Proof.
  rewrite (apply_changes_ok prs modified_text).
  change (apply_changes (patched (collect_updates modified_text) prs) modified_text
          = Ok (patched (collect_updates modified_text) prs)).
  rewrite apply_changes_ok. f_equal.
  rewrite patched_union. apply patched_ext. intros key _.
  rewrite lookup_union. by destruct (collect_updates modified_text !! key).
Qed.

Lemma shape_at_patched updates prs s sh :
  shape_at (patched updates prs) s sh
  = (λ shape, patched_shape updates s (sh, shape)) <$> shape_at prs s sh.
Proof.
  unfold shape_at. rewrite slides_patched.
  destruct (slides prs !! s) as [slide|]; [|done]. simpl.
  rewrite list_lookup_fmap, enumerate_lookup. by destruct (shapes slide !! sh).
Qed.

(** X7. Patching keeps the skeleton of the presentation: the same
    numbers of slides, shapes and paragraphs, shapes without a text
    frame as they were, and in every paragraph the same number of runs
    with the same fonts, except that a paragraph without runs may
    receive one. *)
Theorem apply_changes_keeps_skeleton prs (modified_text : pystr) :
  ∃ prs',
    apply_changes prs modified_text = Ok prs' ∧
    length (slides prs') = length (slides prs) ∧
    (∀ s, shape_count prs' s = shape_count prs s) ∧
    (∀ s sh, paragraph_count prs' s sh = paragraph_count prs s sh) ∧
    (∀ s sh k, shape_at prs s sh = Some (OtherShape k) →
               shape_at prs' s sh = Some (OtherShape k)) ∧
    (∀ key paragraph,
       paragraph_at prs key = Some paragraph →
       ∃ paragraph',
         paragraph_at prs' key = Some paragraph' ∧
         match runs paragraph with
         | [] => runs paragraph' = [] ∨ length (runs paragraph') = 1
         | _ => font <$> runs paragraph' = font <$> runs paragraph
         end).
Proof.
  eexists. split; [apply apply_changes_ok|].
  split; [apply slide_count_patched|]. split; [apply shape_count_patched|].
  split; [apply paragraph_count_patched|]. split.
  - intros s sh k H. by rewrite shape_at_patched, H.
  - intros key paragraph H. rewrite paragraph_at_patched, H. simpl.
    eexists. split; [done|]. unfold patched_paragraph.
    destruct (collect_updates modified_text !! key) as [t|].
    + simpl. destruct (runs paragraph) as [|r rs]; simpl; [by right|].
      f_equal. rewrite <- list_fmap_compose. by apply list_fmap_ext.
    + destruct (runs paragraph); [by left | done].
Qed.

(** X22. A line of the payload that yields no edit (the pattern is
    absent, or [int()] refuses an index) or whose key addresses no
    paragraph of the presentation can be struck from the payload:
    [apply_changes] does what the remaining lines alone make it do. *)
Theorem unusable_line_is_skipped prs (modified_text : pystr)
    (lines1 : list pystr) (bad : pystr) (lines2 : list pystr) :
  split [LF] modified_text = lines1 ++ bad :: lines2 →
  (parse_line bad = None ∨
   ∃ key new_text, parse_line bad = Some (key, new_text) ∧ paragraph_at prs key = None) →
  apply_changes prs modified_text = apply_updates (scan_lines (lines1 ++ lines2)) prs.
Proof.
  intros Hsplit Hbad.
  rewrite apply_changes_ok, apply_updates_ok. f_equal.
  apply patched_ext. intros key Hkey.
  unfold collect_updates. rewrite Hsplit. apply scan_lines_drop_line.
  intros new_text Hparse. destruct Hbad as [Hno | (k & t & Hk & Hnone)].
  - by rewrite Hno in Hparse.
  - rewrite Hk in Hparse. injection Hparse as -> ->.
    rewrite Hnone in Hkey. by destruct Hkey.
Qed.

Lemma unusable_line_is_skipped_witness :
  apply_changes sample_deck
    (str "{S1:Sh0:P0} || Plan" ++ [LF] ++ str "{S0:Sh1:P0 || broken" ++ [LF] ++ str "{S7:Sh0:P0} || nowhere")
  = apply_updates (scan_lines [str "{S1:Sh0:P0} || Plan"; str "{S7:Sh0:P0} || nowhere"]) sample_deck
  ∧
  apply_changes sample_deck
    (str "{S1:Sh0:P0} || Plan" ++ [LF] ++ str "{S0:Sh1:P0 || broken" ++ [LF] ++ str "{S7:Sh0:P0} || nowhere")
  = apply_updates (scan_lines [str "{S1:Sh0:P0} || Plan"; str "{S0:Sh1:P0 || broken"]) sample_deck.
Proof.
  split.
  - apply (unusable_line_is_skipped sample_deck _
             [str "{S1:Sh0:P0} || Plan"] (str "{S0:Sh1:P0 || broken")
             [str "{S7:Sh0:P0} || nowhere"]).
    + vm_compute. reflexivity.
    + left. vm_compute. reflexivity.
  - apply (unusable_line_is_skipped sample_deck _
             [str "{S1:Sh0:P0} || Plan"; str "{S0:Sh1:P0 || broken"]
             (str "{S7:Sh0:P0} || nowhere") []).
    + vm_compute. reflexivity.
    + right. exists (7, 0, 0), (str "nowhere"). split; vm_compute; reflexivity.
Defined.

(** X23. For a payload over the code points 0..255 [apply_changes]
    returns, whatever the presentation: what [int()] raises is caught
    line by line, and the setter of [run.text] raises on none of these
    characters once it has escaped the control characters.  The result
    is the presentation patched with the edits mapping of the payload. *)
Theorem apply_changes_returns prs (modified_text : pystr) :
  ∃ prs',
    apply_changes prs modified_text = Ok prs' ∧
    ∀ key, paragraph_at prs' key
           = patched_paragraph (collect_updates modified_text) key <$> paragraph_at prs key.
Proof.
  eexists. split; [apply apply_changes_ok|]. intros key. apply paragraph_at_patched.
Qed.

End Patcher.

(** ** More about the extractor *)

Section Extractor.

Implicit Types (prs : Presentation).

Lemma NoDup_flat_map {A B} (f : A → list B) (l : list A) :
  NoDup l → (∀ x, x ∈ l → NoDup (f x)) →
  (∀ x y z, x ∈ l → y ∈ l → z ∈ f x → z ∈ f y → x = y) →
  NoDup (flat_map f l).
Proof.
  induction l as [|a l IH]; intros Hl Hf Hdisj; simpl; [constructor|].
  apply NoDup_cons in Hl as [Ha Hl]. apply NoDup_app. split; [|split].
  - apply Hf, list_elem_of_here.
  - intros z Hz Hin. apply list_elem_of_In, in_flat_map in Hin as (y & Hy & Hzy).
    apply list_elem_of_In in Hy, Hzy.
    assert (a = y) as -> by (eapply Hdisj; eauto using list_elem_of_here, list_elem_of_further).
    done.
  - apply IH; [done|..].
    + intros x Hx. by apply Hf, list_elem_of_further.
    + intros x y z Hx Hy. apply Hdisj; by apply list_elem_of_further.
Qed.

Lemma uid_line_at_elem prs (s sh p : nat) z :
  z ∈ uid_of <$> line_at prs s sh p →
  z = Some (uid_text (str_nat s) (str_nat sh) (str_nat p)).
Proof.
  intros (line & -> & Hl)%list_elem_of_fmap. unfold line_at in Hl.
  destruct (paragraph_at prs (s, sh, p)) as [paragraph|]; [|by apply elem_of_nil in Hl].
  destruct (paragraph_text paragraph) as [|c t]; [by apply elem_of_nil in Hl|].
  apply list_elem_of_singleton in Hl as ->. apply uid_of_format_line.
Qed.

Lemma uid_some_inj (n1 n2 n3 m1 m2 m3 : nat) (z : option pystr) :
  z = Some (uid_text (str_nat n1) (str_nat n2) (str_nat n3)) →
  z = Some (uid_text (str_nat m1) (str_nat m2) (str_nat m3)) →
  (n1, n2, n3) = (m1, m2, m3).
Proof. intros -> H. by apply (inj Some), uid_text_str_nat_inj in H. Qed.

Lemma uid_line_at_NoDup prs (s sh p : nat) : NoDup (uid_of <$> line_at prs s sh p).
Proof.
  unfold line_at. destruct (paragraph_at prs (s, sh, p)); [|constructor].
  destruct (paragraph_text _); [constructor | apply NoDup_singleton].
Qed.

Lemma flat_map_elem {A B} (f : A → list B) (l : list A) z :
  z ∈ flat_map f l → ∃ x, x ∈ l ∧ z ∈ f x.
Proof.
  intros (x & Hx & Hz)%list_elem_of_In%in_flat_map. exists x.
  by split; apply list_elem_of_In.
Qed.

(** The identifiers of the lines, position by position, are pairwise distinct. *)
Lemma positional_uids_NoDup prs : NoDup (uid_of <$> positional_lines prs).
Proof.
  unfold positional_lines. rewrite fmap_flat_map.
  apply NoDup_flat_map; [apply NoDup_seq|..].
  - intros s _. rewrite fmap_flat_map. apply NoDup_flat_map; [apply NoDup_seq|..].
    + intros sh _. rewrite fmap_flat_map. apply NoDup_flat_map; [apply NoDup_seq|..].
      * intros p _. apply uid_line_at_NoDup.
      * intros p p' z _ _ Hz%uid_line_at_elem Hz'%uid_line_at_elem.
        pose proof (uid_some_inj _ _ _ _ _ _ _ Hz Hz'). congruence.
    + intros sh sh' z _ _. rewrite !fmap_flat_map.
      intros (p & _ & Hz%uid_line_at_elem)%flat_map_elem
        (p' & _ & Hz'%uid_line_at_elem)%flat_map_elem.
      pose proof (uid_some_inj _ _ _ _ _ _ _ Hz Hz'). congruence.
  - intros s s' z _ _. rewrite !fmap_flat_map.
    intros (sh & _ & Hz)%flat_map_elem (sh' & _ & Hz')%flat_map_elem.
    rewrite fmap_flat_map in Hz, Hz'.
    apply flat_map_elem in Hz as (p & _ & Hz%uid_line_at_elem).
    apply flat_map_elem in Hz' as (p' & _ & Hz'%uid_line_at_elem).
    pose proof (uid_some_inj _ _ _ _ _ _ _ Hz Hz'). congruence.
Qed.

(** X8. When no paragraph's trimmed text holds a line feed, the lines of
    the text that [extract_content] returns carry pairwise distinct
    identifiers: no identifier is written twice, and no line occurs
    twice. *)
Theorem extracted_lines_distinct prs :
  single_line_texts prs = true →
  NoDup (uid_of <$> split [LF] (extract_content prs).2) ∧
  NoDup (split [LF] (extract_content prs).2).
Proof.
  intros Hsl.
  assert (NoDup (uid_of <$> split [LF] (extract_content prs).2)) as H;
    [|split; [done | by apply NoDup_fmap_1 in H]].
  destruct (extracted_lines prs) as [|l ls] eqn:E.
  - unfold extract_content. rewrite E. apply NoDup_singleton.
  - rewrite extract_content_split by (done || by rewrite E).
    rewrite extracted_lines_positional. apply positional_uids_NoDup.
Qed.

Lemma extracted_lines_distinct_witness :
  NoDup (uid_of <$> split [LF] (extract_content sample_deck).2) ∧
  NoDup (split [LF] (extract_content sample_deck).2).
Proof. apply (extracted_lines_distinct sample_deck). vm_compute. reflexivity. Defined.

End Extractor.

(** ** More about the stream loop *)

Section StreamLoop.

Implicit Types (st : Parser) (stream pre rest : list pystr) (content : pystr).

Lemma consume_app stream rest :
  consume (stream ++ rest) = fold_left feed rest (consume stream).
Proof. unfold consume. apply fold_left_app. Qed.

Lemma split_head (sep s : pystr) :
  sep ≠ [] → ∃ tl, split sep s = before_first sep s :: tl.
Proof.
  intros Hsep. rewrite split_unfold by done. unfold before_first.
  destruct (find sep s); by eexists.
Qed.

Lemma feed_transition st content i :
  mode st = THINKING →
  find SEPARATOR (thinking_buffer st ++ content) = Some i →
  feed st content
  = {| thinking_buffer := thinking_buffer st ++ content;
       slide_content :=
         slide_content st
           ++ before_first SEPARATOR (after_first SEPARATOR (thinking_buffer st ++ content));
       mode := WRITING |}.
Proof.
  intros Hm Hf. unfold feed. rewrite Hm. unfold contains at 1, after_first. rewrite Hf.
  rewrite split_unfold, Hf by done.
  destruct (split_head SEPARATOR
              (drop (i + length SEPARATOR) (thinking_buffer st ++ content))) as [tl ->]; [done|].
  done.
Qed.

Lemma consume_mode_writing stream st :
  mode st = THINKING →
  contains SEPARATOR (thinking_buffer st) = false →
  contains SEPARATOR (thinking_buffer st ++ concat stream) = true →
  mode (fold_left feed stream st) = WRITING.
Proof.
  revert st. induction stream as [|content stream IH]; intros st Hm Hno Hyes.
  - simpl in Hyes. rewrite app_nil_r in Hyes. congruence.
  - cbn [concat fold_left] in *. rewrite app_assoc in Hyes.
    destruct (contains SEPARATOR (thinking_buffer st ++ content)) eqn:C.
    + unfold contains in C.
      destruct (find SEPARATOR (thinking_buffer st ++ content)) as [i|] eqn:F; [|done].
      rewrite (feed_transition st content i Hm F). by rewrite consume_writing.
    + apply IH; unfold feed; rewrite Hm, C; done.
Qed.

(** X9. The loop is in [WRITING] mode at the end exactly when the
    separator occurs in the text of the whole stream, however the text
    is cut into chunks; while it does not occur, the buffer holds the
    whole text and the payload is empty. *)
Theorem mode_follows_separator stream :
  (mode (consume stream) = WRITING ↔ contains SEPARATOR (concat stream) = true) ∧
  (contains SEPARATOR (concat stream) = false →
   consume stream
   = {| thinking_buffer := concat stream; slide_content := []; mode := THINKING |}).
Proof.
  split; [|apply consume_no_separator]. split.
  - intros Hm. destruct (contains SEPARATOR (concat stream)) eqn:C; [done|].
    by rewrite (consume_no_separator _ C) in Hm.
  - intros C. by apply consume_mode_writing.
Qed.

Lemma mode_follows_separator_witness :
  mode (consume [str "plan @@@_START_SLIDE_"; str "CONTENT_@@@{S0:Sh0:P0} || A"]) = WRITING.
Proof.
  apply (proj1 (mode_follows_separator
                  [str "plan @@@_START_SLIDE_"; str "CONTENT_@@@{S0:Sh0:P0} || A"])).
  vm_compute. reflexivity.
Defined.

(** X10. The payload in full: let the buffer be the text up to the end
    of the first chunk that completes a separator.  The payload is the
    text of the buffer after its first separator, cut before the next
    separator if the buffer has one, followed by every later chunk as
    it comes. *)
Theorem payload_after_transition pre content rest :
  contains SEPARATOR (concat pre) = false →
  contains SEPARATOR (concat pre ++ content) = true →
  consume (pre ++ content :: rest)
  = {| thinking_buffer := concat pre ++ content;
       slide_content :=
         before_first SEPARATOR (after_first SEPARATOR (concat pre ++ content)) ++ concat rest;
       mode := WRITING |}.
Proof.
  intros Hno Hyes. rewrite consume_app, (consume_no_separator _ Hno).
  cbn [fold_left]. unfold contains in Hyes.
  destruct (find SEPARATOR (concat pre ++ content)) as [i|] eqn:F; [|done].
  rewrite (feed_transition
             {| thinking_buffer := concat pre; slide_content := []; mode := THINKING |}
             content i eq_refl F).
  by rewrite consume_writing.
Qed.

Lemma payload_after_transition_witness :
  consume ([str "plan @@@_START"] ++ first_chunk :: [second_chunk])
  = {| thinking_buffer := concat [str "plan @@@_START"] ++ first_chunk;
       slide_content :=
         before_first SEPARATOR
           (after_first SEPARATOR (concat [str "plan @@@_START"] ++ first_chunk))
           ++ concat [second_chunk];
       mode := WRITING |}.
Proof.
  apply (payload_after_transition [str "plan @@@_START"] first_chunk [second_chunk]);
    vm_compute; reflexivity.
Defined.

(** X11. When the separator occurs in the text of the stream and not
    again after its first occurrence, the payload is all the text after
    it, however the text is cut into chunks. *)
Theorem payload_single_separator stream :
  contains SEPARATOR (concat stream) = true →
  contains SEPARATOR (after_first SEPARATOR (concat stream)) = false →
  final_payload stream = after_first SEPARATOR (concat stream).
Proof.
  unfold after_first, contains at 1. intros Hyes Hrest.
  destruct (find SEPARATOR (concat stream)) as [i|] eqn:F; [|done].
  destruct (consume_unrepeated stream initial i) as [H1 H2]; try done.
  rewrite final_payload_writing by done. unfold consume. by rewrite H2.
Qed.

Lemma payload_single_separator_witness :
  final_payload [str "reasoning text @@@_ST"; str "ART_SLIDE_CONTENT_@@@{S0:Sh0:P0} || Hello"]
  = after_first SEPARATOR
      (concat [str "reasoning text @@@_ST"; str "ART_SLIDE_CONTENT_@@@{S0:Sh0:P0} || Hello"]).
Proof. apply payload_single_separator; vm_compute; reflexivity. Defined.

(** X12. Once the separator has been seen, whatever comes later is
    appended to the payload as it is, a further separator included, and
    the buffer no longer changes. *)
Theorem writing_is_final stream rest :
  mode (consume stream) = WRITING →
  consume (stream ++ rest)
  = {| thinking_buffer := thinking_buffer (consume stream);
       slide_content := slide_content (consume stream) ++ concat rest;
       mode := WRITING |}.
Proof. intros H. rewrite consume_app. by apply consume_writing. Qed.

Lemma writing_is_final_witness :
  consume ([first_chunk] ++ [second_chunk])
  = {| thinking_buffer := thinking_buffer (consume [first_chunk]);
       slide_content := slide_content (consume [first_chunk]) ++ concat [second_chunk];
       mode := WRITING |}.
Proof. apply (writing_is_final [first_chunk] [second_chunk]). vm_compute. reflexivity. Defined.

(** *** The end of a run *)

Lemma drop_while_keeps (P : ascii → bool) (s : pystr) c :
  c ∈ s → P c = false → c ∈ drop_while P s.
Proof.
  induction s as [|d s IH]; intros Hin Hc; [done|]. simpl.
  destruct (P d) eqn:E; [|done].
  apply elem_of_cons in Hin as [->|Hin]; [congruence | by apply IH].
Qed.

Lemma strip_nonempty (s : pystr) c : c ∈ s → is_space c = false → strip s ≠ [].
Proof.
  intros Hin Hc. unfold strip, strip_class.
  assert (c ∈ reverse (drop_while is_space (reverse (drop_while is_space s)))) as H.
  { apply elem_of_reverse, drop_while_keeps; [|done].
    apply elem_of_reverse. by apply drop_while_keeps. }
  intros E. rewrite E in H. by apply elem_of_nil in H.
Qed.

Lemma join_elem (sep : pystr) (ls : list pystr) l c : l ∈ ls → c ∈ l → c ∈ join sep ls.
Proof.
  induction ls as [|x ls IH]; intros Hl Hc; [by apply elem_of_nil in Hl|].
  apply elem_of_cons in Hl as [->|Hl].
  - destruct ls; simpl; [done|]. apply elem_of_app. by left.
  - destruct ls as [|y ls]; [by apply elem_of_nil in Hl|].
    change (join sep (x :: y :: ls)) with (x ++ sep ++ join sep (y :: ls)).
    rewrite !elem_of_app. right. right. by apply IH.
Qed.

Lemma valid_line_brace (l : pystr) : is_valid_line l = true → "{"%char ∈ l.
Proof.
  unfold is_valid_line. intros [_ H]%andb_true_iff.
  apply contains_true in H as (a & b & ->). rewrite !elem_of_app. right. left.
  apply list_elem_of_here.
Qed.

(** A line that the pattern matches holds both [||] and [{]. *)
Lemma parse_line_valid (line : pystr) kt : parse_line line = Some kt → is_valid_line line = true.
Proof.
  unfold parse_line. destruct (re_search line) as [m|] eqn:E; [|done]. intros _.
  apply re_search_Some in E as (i & E & _).
  apply match_here_inv in E as (d1 & d2 & d3 & ws & rest & E & _).
  rewrite <- (take_drop i line), E. unfold is_valid_line. apply andb_true_iff. split.
  - apply contains_true. exists (take i line ++ uid_text d1 d2 d3 ++ ws), rest.
    by rewrite <- !app_assoc.
  - apply contains_true.
    exists (take i line), (str "S" ++ d1 ++ str ":Sh" ++ d2 ++ str ":P" ++ d3 ++ str "}"
                             ++ ws ++ str "||" ++ rest).
    unfold uid_text. by rewrite <- !app_assoc.
Qed.

Lemma fold_scan_filter (lines : list pystr) (updates : Updates) :
  fold_left scan_line (filter (λ l, is_valid_line l = true) lines) updates
  = fold_left scan_line lines updates.
Proof.
  revert updates. induction lines as [|l lines IH]; intros updates; [done|].
  rewrite filter_cons. destruct (decide (is_valid_line l = true)) as [Hv|Hv]; simpl.
  - apply IH.
  - rewrite IH. f_equal. unfold scan_line.
    destruct (parse_line l) as [kt|] eqn:E; [|done].
    by apply parse_line_valid in E.
Qed.

Lemma valid_lines_no_LF (buffer : pystr) :
  Forall (λ line, LF ∉ line) (valid_lines_of buffer).
Proof.
  apply Forall_forall. intros l [_ Hl]%list_elem_of_filter. by eapply split_char_no_sep.
Qed.

(** X14. Without a separator the fail-safe loses no edit: the edits of
    the recovered payload are those of the whole text, so that
    [apply_changes] does on the recovered payload what it does on the
    whole text.  If at least one line holds both [||] and [{], the
    payload is these lines joined by line feeds and it is not blank, so
    the final processing does call [apply_changes]. *)
Theorem recovery_keeps_every_edit (temp : Presentation) stream :
  contains SEPARATOR (concat stream) = false →
  collect_updates (final_payload stream) = collect_updates (concat stream) ∧
  apply_changes temp (final_payload stream) = apply_changes temp (concat stream) ∧
  (valid_lines_of (concat stream) ≠ [] →
   final_payload stream = join [LF] (valid_lines_of (concat stream)) ∧
   strip (final_payload stream) ≠ []).
Proof.
  intros Hno.
  assert (collect_updates (final_payload stream) = collect_updates (concat stream) ∧
          (valid_lines_of (concat stream) ≠ [] →
           final_payload stream = join [LF] (valid_lines_of (concat stream)) ∧
           strip (final_payload stream) ≠ [])) as [Hc Hv];
    [|split; [done|]; split; [|done]; unfold apply_changes; by rewrite Hc].
  unfold final_payload. rewrite (consume_no_separator _ Hno). unfold fail_safe.
  cbn [mode thinking_buffer slide_content]. fold (valid_lines_of (concat stream)).
  assert (scan_lines (valid_lines_of (concat stream)) = collect_updates (concat stream)) as Hsame
    by apply fold_scan_filter.
  assert (valid_lines_of (concat stream) = [] → ∅ = collect_updates (concat stream)) as Hnone.
  { intros E. by rewrite <- Hsame, E. }
  destruct (contains (str "{S0") (concat stream) || contains (str "||") (concat stream)) eqn:G.
  - destruct (valid_lines_of (concat stream)) as [|l ls] eqn:E.
    + cbn [fst]. split; [by apply Hnone | done].
    + cbn [fst]. split.
      * rewrite <- Hsame. apply collect_updates_join. rewrite <- E. apply valid_lines_no_LF.
      * intros _. split; [done|].
        apply (strip_nonempty _ "{"%char); [|done].
        apply (join_elem _ _ l); [apply list_elem_of_here|].
        apply valid_line_brace.
        assert (l ∈ valid_lines_of (concat stream)) as Hl by (rewrite E; apply list_elem_of_here).
        by apply list_elem_of_filter in Hl as [Hl _].
  - assert (valid_lines_of (concat stream) = []) as E.
    { apply orb_false_iff in G as [_ G].
      destruct (valid_lines_of (concat stream)) as [|l ls] eqn:E; [done|].
      assert (l ∈ valid_lines_of (concat stream)) as Hl by (rewrite E; apply list_elem_of_here).
      apply list_elem_of_filter in Hl as [Hv Hl]. unfold is_valid_line in Hv.
      apply andb_true_iff in Hv as [Hv _].
      by rewrite (contains_line _ _ _ Hl Hv) in G. }
    cbn [fst]. split; [by apply Hnone | by rewrite E].
Qed.

Lemma recovery_keeps_every_edit_witness :
  collect_updates (final_payload narrated_stream) = collect_updates (concat narrated_stream) ∧
  apply_changes sample_deck (final_payload narrated_stream)
  = apply_changes sample_deck (concat narrated_stream) ∧
  (valid_lines_of (concat narrated_stream) ≠ [] →
   final_payload narrated_stream = join [LF] (valid_lines_of (concat narrated_stream)) ∧
   strip (final_payload narrated_stream) ≠ []).
Proof. apply (recovery_keeps_every_edit sample_deck narrated_stream). vm_compute. reflexivity. Defined.

End StreamLoop.

(** ** The chat generator *)

Section ChatGenerator.

Implicit Types (chunks : list pystr) (failure : option pystr) (st : Loader).

Lemma loader_started st chunks :
  has_started st = true →
  fold_left loader_chunk chunks st
  = {| has_started := true; effects := effects st ++ (Yield <$> chunks) |}.
Proof.
  revert st. induction chunks as [|c chunks IH]; intros [b es] Hb; simpl in *; subst.
  - by rewrite app_nil_r.
  - rewrite IH by done. simpl. by rewrite <- app_assoc.
Qed.

Lemma loader_fresh st chunks :
  has_started st = false →
  fold_left loader_chunk chunks st
  = match chunks with
    | [] => st
    | _ => {| has_started := true; effects := effects st ++ Show Blank :: (Yield <$> chunks) |}
    end.
Proof.
  intros Hb. destruct chunks as [|c chunks]; [done|].
  simpl. unfold loader_chunk at 2. rewrite Hb.
  rewrite loader_started by done. simpl. by rewrite <- app_assoc.
Qed.

Lemma yielded_app (es1 es2 : list Effect) : yielded (es1 ++ es2) = yielded es1 ++ yielded es2.
Proof. apply omap_app. Qed.

Lemma yielded_yields chunks : yielded (Yield <$> chunks) = chunks.
Proof. induction chunks as [|c chunks IH]; [done|]. simpl. unfold yielded in *. simpl. by f_equal. Qed.

Lemma shown_app_yields (es : list Effect) chunks : shown (es ++ (Yield <$> chunks)) = shown es.
Proof.
  unfold shown. rewrite omap_app.
  assert (omap (λ e, match e with Show w => Some w | Yield _ => None end) (Yield <$> chunks) = [])
    as -> by (induction chunks; done).
  by rewrite app_nil_r.
Qed.

Lemma shown_snoc (es : list Effect) w : shown (es ++ [Show w]) = Some w.
Proof. unfold shown. rewrite omap_app. simpl. apply last_snoc. Qed.

Lemma yielded_snoc_show (es : list Effect) w : yielded (es ++ [Show w]) = yielded es.
Proof. rewrite yielded_app. unfold yielded at 2. simpl. apply app_nil_r. Qed.

Lemma loader_facts chunks failure :
  yielded (stream_with_initial_loader chunks failure) = chunks ∧
  shown (stream_with_initial_loader chunks failure)
  = Some match failure with
         | Some e => ErrorBox (str "Connection Error: " ++ e)
         | None =>
             match chunks with
             | [] => ErrorBox (str "Model returned no response.")
             | _ => Blank
             end
         end.
Proof.
  unfold stream_with_initial_loader. rewrite loader_fresh by done.
  destruct chunks as [|c chunks].
  - destruct failure; done.
  - cbn [has_started effects].
    set (spin := Show (Spinner (str "Connecting to Model...") (str "#f1c40f"))).
    assert ([spin] ++ Show Blank :: (Yield <$> c :: chunks)
            = [spin; Show Blank] ++ (Yield <$> c :: chunks)) as -> by done.
    destruct failure as [e|].
    + rewrite shown_snoc, yielded_snoc_show, yielded_app, yielded_yields. done.
    + rewrite shown_app_yields, yielded_app, yielded_yields. done.
Qed.

(** X15. The generator yields the chunks of the backend in order, no
    more and no less, also when the backend fails after them.  When it
    is done the placeholder never shows the spinner: it is blank after
    an answer that ended well, and shows an error after a failure or
    after an answer without any chunk. *)
Theorem loader_behaviour chunks failure :
  yielded (stream_with_initial_loader chunks failure) = chunks ∧
  shown (stream_with_initial_loader chunks failure)
  = Some match failure with
         | Some e => ErrorBox (str "Connection Error: " ++ e)
         | None =>
             match chunks with
             | [] => ErrorBox (str "Model returned no response.")
             | _ => Blank
             end
         end.
Proof. apply loader_facts. Qed.

End ChatGenerator.

(** ** The page *)

Section PageFacts.

Implicit Types (page : Page) (evs : list Event) (ev : Event).

Lemma after_events_snoc evs ev : after_events (evs ++ [ev]) = handle (after_events evs) ev.
Proof. unfold after_events. by rewrite fold_left_app. Qed.

Lemma after_events_app evs more :
  after_events (evs ++ more) = fold_left handle more (after_events evs).
Proof. unfold after_events. by rewrite fold_left_app. Qed.

(** What holds of the page after any sequence of events. *)
Lemma page_invariant evs :
  (file_uploaded (after_events evs) = true →
   ∃ prs, temp_pptx (after_events evs) = Some (Loadable prs) ∧
          raw_pptx_text (after_events evs) = (extract_content prs).2) ∧
  (file_uploaded (after_events evs) = false → raw_pptx_text (after_events evs) = []) ∧
  (∃ n, role <$> chat_history (after_events evs) = concat (replicate n [User; Assistant])).
Proof.
  induction evs as [|ev evs IH] using rev_ind.
  - split; [done|]. split; [done|]. by exists 0.
  - rewrite after_events_snoc. destruct IH as (I1 & I2 & n & I3).
    destruct (after_events evs) as [h raw instr up tmp]. simpl in *.
    assert ((up = true → ∃ prs, tmp = Some (Loadable prs) ∧ raw = (extract_content prs).2) ∧
            (up = false → raw = []) ∧
            (∃ n, role <$> h = concat (replicate n [User; Assistant]))) as Hsame
      by (split; [done|]; split; [done|]; by exists n).
    destruct ev as [file| |prompt chunks failure| |instruction stream]; simpl.
    + unfold on_upload. simpl. destruct up; [done|].
      destruct file as [prs|message]; simpl.
      * split; [intros _; by exists prs|]. split; [done|]. by exists n.
      * split; [done|]. split; [done|]. by exists n.
    + unfold on_upload_new_file. simpl. destruct up; simpl; [|done].
      split; [done|]. split; [done|]. by exists n.
    + unfold on_chat. simpl. destruct up; [|done].
      destruct prompt as [|c prompt]; [done|]. simpl.
      split; [done|]. split; [done|]. exists (S n).
      rewrite !fmap_app, I3, replicate_S_end, concat_app. simpl. by rewrite <- app_assoc.
    + unfold on_use_strategy. simpl. destruct up; [|done].
      destruct (last h); simpl; done.
    + done.
Qed.

(** X16. Whenever the tabs are on the page, [temp.pptx] loads and the
    text kept in the session is the extraction of that very
    presentation; and a run of the second tab with an instruction, on a
    stream that the backend delivers in full, ends as the loop, the
    fail-safe and the final processing do on that presentation: with
    their outcome when they return, in the [except] of the tab when
    [apply_changes] raises. *)
Theorem tabs_work_on_the_loaded_deck evs :
  file_uploaded (after_events evs) = true →
  ∃ prs,
    temp_pptx (after_events evs) = Some (Loadable prs) ∧
    raw_pptx_text (after_events evs) = (extract_content prs).2 ∧
    ∀ (instruction : pystr) (stream : list pystr),
      instruction ≠ [] →
      generator_tab (after_events evs) instruction stream
      = match run_transformation prs stream with
        | Ok out => Finished out
        | Raise _ => Failed
        end.
Proof.
  intros Hup. destruct (page_invariant evs) as (I1 & _).
  destruct (I1 Hup) as (prs & Htemp & Hraw). exists prs. split; [done|]. split; [done|].
  intros instruction stream Hne. unfold generator_tab, run_transformation.
  destruct instruction as [|c instruction]; [done|].
  destruct (fail_safe (consume stream)) as [content note].
  destruct (strip content); [done|].
  rewrite Htemp. by destruct (apply_changes prs content).
Qed.

Lemma tabs_work_on_the_loaded_deck_witness :
  ∃ prs,
    temp_pptx (after_events [Upload (Corrupt (str "bad zip")); Upload (Loadable sample_deck)])
    = Some (Loadable prs) ∧
    raw_pptx_text (after_events [Upload (Corrupt (str "bad zip")); Upload (Loadable sample_deck)])
    = (extract_content prs).2 ∧
    ∀ (instruction : pystr) (stream : list pystr),
      instruction ≠ [] →
      generator_tab
        (after_events [Upload (Corrupt (str "bad zip")); Upload (Loadable sample_deck)])
        instruction stream
      = match run_transformation prs stream with
        | Ok out => Finished out
        | Raise _ => Failed
        end.
Proof.
  apply (tabs_work_on_the_loaded_deck
           [Upload (Corrupt (str "bad zip")); Upload (Loadable sample_deck)]).
  reflexivity.
Defined.

(** X17. While no file is loaded the session holds no extracted text;
    and the chat history is always a sequence of pairs, a message of
    the user followed by a message of the assistant. *)
Theorem page_state_is_consistent evs :
  (file_uploaded (after_events evs) = false → raw_pptx_text (after_events evs) = []) ∧
  (∃ n, role <$> chat_history (after_events evs) = concat (replicate n [User; Assistant])).
Proof. destruct (page_invariant evs) as (_ & I2 & I3). by split. Qed.

Lemma handle_keeps_history page ev : chat_history page `prefix_of` chat_history (handle page ev).
Proof.
  destruct page as [h raw instr up tmp].
  destruct ev as [file| |prompt chunks failure| |instruction stream]; simpl.
  - unfold on_upload. simpl. destruct up; [done|]. by destruct file.
  - unfold on_upload_new_file. simpl. by destruct up.
  - unfold on_chat. simpl. destruct up; [|done]. destruct prompt; [done|]. simpl.
    rewrite <- app_assoc. by apply prefix_app_r.
  - unfold on_use_strategy. simpl. destruct up; [|done]. by destruct (last h).
  - done.
Qed.

(** X18. No event removes or alters a message of the chat: the history
    before further events is a prefix of the history after them.  In
    particular the button that asks for a new file keeps the chat. *)
Theorem chat_history_only_grows evs more :
  chat_history (after_events evs) `prefix_of` chat_history (after_events (evs ++ more)).
Proof.
  rewrite after_events_app. generalize (after_events evs). intros page. revert page.
  induction more as [|ev more IH]; intros page; [done|].
  simpl. etrans; [apply handle_keeps_history | apply IH].
Qed.

(** X19. A chat turn on a loaded page with a prompt that is not empty
    adds two messages: the prompt, and as the answer of the assistant
    the chunks received put together, also when the backend failed
    after them. *)
Theorem chat_turn_records_answer evs (prompt : pystr) (chunks : list pystr)
    (failure : option pystr) :
  file_uploaded (after_events evs) = true →
  prompt ≠ [] →
  chat_history (after_events (evs ++ [Chat prompt chunks failure]))
  = chat_history (after_events evs)
      ++ [ {| role := User; content := prompt |};
           {| role := Assistant; content := concat chunks |} ].
Proof.
  intros Hup Hne. rewrite after_events_snoc. simpl. unfold on_chat. rewrite Hup.
  destruct prompt as [|c prompt]; [done|]. simpl.
  unfold write_stream. rewrite (proj1 (loader_facts chunks failure)).
  by rewrite <- app_assoc.
Qed.

Lemma chat_turn_records_answer_witness :
  chat_history (after_events ([Upload (Loadable sample_deck)]
                                ++ [Chat (str "Shorter?") [str "Yes, "; str "cut"] (Some (str "reset"))]))
  = chat_history (after_events [Upload (Loadable sample_deck)])
      ++ [ {| role := User; content := str "Shorter?" |};
           {| role := Assistant; content := concat [str "Yes, "; str "cut"] |} ].
Proof.
  apply (chat_turn_records_answer [Upload (Loadable sample_deck)]); [reflexivity | discriminate].
Defined.

(** X20. On a loaded page whose chat is not empty, the strategy button
    stores, after its fixed heading, the content of the last message of
    the chat, and that message is the assistant's. *)
Theorem strategy_copies_last_answer evs :
  file_uploaded (after_events evs) = true →
  chat_history (after_events evs) ≠ [] →
  ∃ last_msg,
    last (chat_history (after_events evs)) = Some last_msg ∧
    role last_msg = Assistant ∧
    generator_instruction (after_events (evs ++ [UseStrategy]))
    = strategy_prefix ++ content last_msg.
Proof.
  intros Hup Hne. rewrite after_events_snoc. simpl. unfold on_use_strategy. rewrite Hup.
  destruct (page_invariant evs) as (_ & _ & n & Hroles).
  destruct (last (chat_history (after_events evs))) as [m|] eqn:E.
  - exists m. split; [done|]. split; [|done].
    assert (last (role <$> chat_history (after_events evs)) = Some (role m)) as Hl
      by (by rewrite fmap_last, E).
    rewrite Hroles in Hl. destruct n as [|n]; [done|].
    rewrite replicate_S_end, concat_app in Hl. simpl in Hl.
    rewrite (app_assoc _ [User] [Assistant]), last_snoc in Hl. by injection Hl as <-.
  - apply last_None in E. done.
Qed.

Lemma strategy_copies_last_answer_witness :
  ∃ last_msg,
    last (chat_history
            (after_events [Upload (Loadable sample_deck); Chat (str "Shorter?") [str "Yes"] None]))
    = Some last_msg ∧
    role last_msg = Assistant ∧
    generator_instruction
      (after_events ([Upload (Loadable sample_deck); Chat (str "Shorter?") [str "Yes"] None]
                       ++ [UseStrategy]))
    = strategy_prefix ++ content last_msg.
Proof.
  apply (strategy_copies_last_answer
           [Upload (Loadable sample_deck); Chat (str "Shorter?") [str "Yes"] None]);
    [reflexivity | discriminate].
Defined.

End PageFacts.

(** ** Indices are read as numbers *)

Lemma digits_value_zeros (n : nat) (d : pystr) :
  digits_value (replicate n "0"%char ++ d) = digits_value d.
Proof. induction n as [|n IH]; [done|]. unfold digits_value in *. simpl. exact IH. Qed.

Lemma digits_zeros (n : nat) (d : pystr) : digits d → digits (replicate n "0"%char ++ d).
Proof.
  intros [Hne Hd]. split.
  - destruct d; [done|]. by destruct n.
  - rewrite forallb_app, Hd. induction n; [done|]. simpl. by rewrite andb_true_r in *.
Qed.

(** X21. The digits of an identifier are read as numbers: a line whose
    indices are written with leading zeros parses to the same key and
    the same replacement as the line without them, as long as no index
    has more than [max_str_digits] digits with its zeros; a line with a
    longer index is skipped. *)
Theorem leading_zeros_ignored (n1 n2 n3 : nat) (d1 d2 d3 ws rest : pystr) :
  digits d1 → digits d2 → digits d3 → forallb is_space ws = true →
  (n1 + length d1 ≤ max_str_digits → n2 + length d2 ≤ max_str_digits →
   n3 + length d3 ≤ max_str_digits →
   parse_line (uid_text (replicate n1 "0"%char ++ d1) (replicate n2 "0"%char ++ d2)
                 (replicate n3 "0"%char ++ d3) ++ ws ++ str "||" ++ rest)
   = parse_line (uid_text d1 d2 d3 ++ ws ++ str "||" ++ rest) ∧
   ∃ new_text,
     parse_line (uid_text d1 d2 d3 ++ ws ++ str "||" ++ rest)
     = Some ((digits_value d1, digits_value d2, digits_value d3), new_text)) ∧
  (max_str_digits < n1 + length d1 ∨ max_str_digits < n2 + length d2
   ∨ max_str_digits < n3 + length d3 →
   parse_line (uid_text (replicate n1 "0"%char ++ d1) (replicate n2 "0"%char ++ d2)
                 (replicate n3 "0"%char ++ d3) ++ ws ++ str "||" ++ rest)
   = None).
Proof.
  intros H1 H2 H3 Hws. split.
  - intros L1 L2 L3.
    rewrite (parse_line_intro (replicate n1 "0"%char ++ d1))
      by (done || (by apply digits_zeros) || (rewrite length_app, length_replicate; lia)).
    rewrite parse_line_intro by (done || lia).
    rewrite !digits_value_zeros. split; [done | by eexists].
  - intros Hlong. apply parse_line_long; [by apply digits_zeros..|done|].
    by rewrite !length_app, !length_replicate.
Qed.

Lemma leading_zeros_ignored_witness :
  parse_line (uid_text (replicate 2 "0"%char ++ str "1") (replicate 0 "0"%char ++ str "0")
                (replicate 1 "0"%char ++ str "2") ++ str " " ++ str "||" ++ str " Hi")
  = parse_line (uid_text (str "1") (str "0") (str "2") ++ str " " ++ str "||" ++ str " Hi") ∧
  ∃ new_text,
    parse_line (uid_text (str "1") (str "0") (str "2") ++ str " " ++ str "||" ++ str " Hi")
    = Some ((1, 0, 2), new_text).
Proof.
  apply (proj1 (leading_zeros_ignored 2 0 1 (str "1") (str "0") (str "2") (str " ") (str " Hi")
                  ltac:(split; [discriminate | reflexivity])
                  ltac:(split; [discriminate | reflexivity])
                  ltac:(split; [discriminate | reflexivity])
                  eq_refl));
    unfold max_str_digits; simpl; lia.
Defined.
